(** * node-secure-email-server: the validation and delivery pipeline of
    [server.js], embedded in Rocq.

    The embedding follows the source function by function.  JavaScript
    strings are sequences of code units; the model keeps the code units
    below U+0100 (one [ascii] each), which covers every literal of the
    program.  Asynchronous code is sequential ([await] at every call), so it
    is written in a state-and-exception monad over the outside world. *)

From Stdlib Require Import String Ascii List Arith Bool Lia ZArith QArith.
From Stdlib Require Import Numbers.DecimalString.
Import ListNotations.

Local Open Scope nat_scope.
Local Open Scope list_scope.
Local Open Scope string_scope.

(** ** JavaScript primitives used by the server *)

Module Js.

(** Code units [A]..[Z], the class [[A-Z]] of the regular expression. *)
Definition isUpperAZ (c : ascii) : bool :=
  ((65 <=? nat_of_ascii c) && (nat_of_ascii c <=? 90))%nat.

(** The upper-case letters of the Latin-1 supplement, U+00C0..U+00DE
    without the multiplication sign U+00D7. *)
Definition isUpperLatin1 (c : ascii) : bool :=
  ((192 <=? nat_of_ascii c) && (nat_of_ascii c <=? 222)
   && negb (nat_of_ascii c =? 215))%nat.

Definition toLowerChar (c : ascii) : ascii :=
  if isUpperAZ c || isUpperLatin1 c
  then ascii_of_nat (nat_of_ascii c + 32)
  else c.

(** [String.prototype.toLowerCase] on code units below U+0100. *)
Fixpoint toLowerCase (s : string) : string :=
  match s with
  | EmptyString => EmptyString
  | String c s' => String (toLowerChar c) (toLowerCase s')
  end.

(** [s.includes(k)]: [k] starts at some position of [s]. *)
Fixpoint includes (s k : string) : bool :=
  String.prefix k s ||
  match s with
  | EmptyString => false
  | String _ s' => includes s' k
  end.

(** [s.match(/[A-Z]/g) || []]: the matched characters, in order. *)
Fixpoint matchUpper (s : string) : list ascii :=
  match s with
  | EmptyString => []
  | String c s' => if isUpperAZ c then c :: matchUpper s' else matchUpper s'
  end.

(** [s.replace(/\n/g, '<br>')]. *)
Fixpoint replaceNewlines (s : string) : string :=
  match s with
  | EmptyString => EmptyString
  | String c s' =>
      if Ascii.eqb c (ascii_of_nat 10)
      then "<br>" ++ replaceNewlines s'
      else String c (replaceNewlines s')
  end.

(** [s.split('@')]. *)
Fixpoint splitAt (s : string) : list string :=
  match s with
  | EmptyString => [EmptyString]
  | String c s' =>
      if Ascii.eqb c "@"%char
      then EmptyString :: splitAt s'
      else match splitAt s' with
           | [] => [String c EmptyString]
           | p :: ps => String c p :: ps
           end
  end.

(** The numbers the program computes with are quotients of two lengths.
    A quotient is kept exact; the two results of a division by zero are
    kept apart, as the comparison treats them differently.  The program
    compares a quotient with the literal 0.3 only: division of doubles is
    correctly rounded and the literal is the double nearest to 3/10, so for
    lengths below 2^50 the comparison of the doubles and the comparison of
    the exact quotient with 3/10 have the same value. *)
Inductive number : Type :=
| NaN : number
| Infinity : number
| Num : Q -> number.

(** [a / b] for two array or string lengths. *)
Definition div (a b : nat) : number :=
  match b with
  | 0 => match a with 0 => NaN | _ => Infinity end
  | _ => Num (Z.of_nat a # Pos.of_nat b)
  end.

(** [x > y] for a finite [y]: every comparison with [NaN] is false. *)
Definition gt (x : number) (y : Q) : bool :=
  match x with
  | NaN => false
  | Infinity => true
  | Num q => negb (Qle_bool q y)
  end.

(** A value that is either [undefined] or a string: a request field that
    may be missing. *)
Definition field : Type := option string.

(** String conversion, as performed by a template literal. *)
Definition toString (v : field) : string :=
  match v with
  | None => "undefined"
  | Some s => s
  end.

(** [a + b]: concatenation as soon as one operand is a string;
    [undefined + undefined] is the number [NaN], rendered here as [None]. *)
Definition plus (a b : field) : option string :=
  match a, b with
  | None, None => None
  | _, _ => Some (toString a ++ toString b)
  end.

(** Truthiness of a possibly missing string. *)
Definition truthy (v : field) : bool :=
  match v with
  | None => false
  | Some s => negb (String.eqb s "")
  end.

(** [a || b] on possibly missing strings. *)
Definition orElse (a b : field) : field := if truthy a then a else b.

(** [a || 'literal']: the result is always a string. *)
Definition orDefault (a : field) (d : string) : string :=
  match orElse a (Some d) with
  | Some s => s
  | None => d
  end.

(** The double quote and the line feed, which the templates contain. *)
Definition dq : string := String (ascii_of_nat 34) EmptyString.
Definition nl : string := String (ascii_of_nat 10) EmptyString.
Definition unlines (lines : list string) : string := String.concat nl lines.

(** The properties every object inherits from [Object.prototype]. *)
Definition inheritedNames : list string :=
  [ "constructor"; "__defineGetter__"; "__defineSetter__"; "hasOwnProperty";
    "__lookupGetter__"; "__lookupSetter__"; "isPrototypeOf";
    "propertyIsEnumerable"; "toString"; "valueOf"; "__proto__";
    "toLocaleString" ].

(** What the [html] of a message can be: a string, or the member of
    [Object.prototype] of the given name (a function, or the prototype
    itself), which is what a lookup in the template object finds under an
    inherited name.  Every such member is truthy. *)
Inductive html : Type :=
| Markup : string -> html
| Inherited : string -> html.

(** Exceptions: the constructor of the thrown object and its [message]. *)
Inductive exn : Type :=
| Error : string -> exn
| TypeError : string -> exn.

Definition message (e : exn) : string :=
  match e with
  | Error m => m
  | TypeError m => m
  end.

End Js.

(** ** Content screening: [validateEmailContent] *)

Definition spamKeywords : list string :=
  [ "free money"; "click here now"; "urgent action required";
    "congratulations you won"; "limited time offer"; "act now";
    "make money fast"; "no obligation"; "risk free" ].

(** The threshold [0.3] of the capitalization rule. *)
Definition capsThreshold : Q := 3 # 10.

Definition validateEmailContent (subject text : Js.field) (html : string)
  : Js.exn + bool :=
  let content :=
    Js.toLowerCase (Js.toString subject ++ " " ++ Js.toString text ++ " " ++ html) in
  let suspiciousCount :=
    length (filter (fun keyword => Js.includes content keyword) spamKeywords) in
  if (2 <? suspiciousCount)%nat then inr false
  else
    match Js.plus subject text with
    | None => inl (Js.TypeError "(subject + text).match is not a function")
    | Some st =>
        let caps := Js.matchUpper st in
        let total := String.length st in
        if Js.gt (Js.div (length caps) total) capsThreshold then inr false
        else inr true
    end.

(** The screener on three strings, as the specification calls it. *)
Definition isAcceptable (subject text html : string) : Js.exn + bool :=
  validateEmailContent (Some subject) (Some text) html.


(** ** Recipient validation: [validateEmail] *)

(** The addresses refused as obviously fake. *)
Definition denylist : list string :=
  [ "test@test.com"; "example@example.com"; "admin@admin.com" ].

(** Modelled from the spec: [validator.isIn(str, values)] of the validator
    package, which is not part of the repository; the specification reads it
    as membership of the string in the list. *)
Definition isIn (str : string) (values : list string) : bool :=
  existsb (String.eqb str) values.

(** ** Templates: [createEmailTemplate] *)

Definition notificationTemplate (content domain : string) : string :=
  Js.unlines
    [ EmptyString;
      "      <!DOCTYPE html>";
      "      <html>";
      "      <head>";
      "        <meta charset=" ++ Js.dq ++ "utf-8" ++ Js.dq ++ ">";
      "        <meta name=" ++ Js.dq ++ "viewport" ++ Js.dq ++ " content=" ++ Js.dq ++ "width=device-width, initial-scale=1.0" ++ Js.dq ++ ">";
      "        <title>Notification</title>";
      "      </head>";
      "      <body style=" ++ Js.dq ++ "font-family: Arial, sans-serif; line-height: 1.6; color: #333; max-width: 600px; margin: 0 auto; padding: 20px;" ++ Js.dq ++ ">";
      "        <div style=" ++ Js.dq ++ "background: #f8f9fa; padding: 20px; border-radius: 5px;" ++ Js.dq ++ ">";
      "          <h2 style=" ++ Js.dq ++ "color: #2c3e50; margin-bottom: 20px;" ++ Js.dq ++ ">Notification</h2>";
      "          <div style=" ++ Js.dq ++ "background: white; padding: 20px; border-radius: 5px; border-left: 4px solid #3498db;" ++ Js.dq ++ ">";
      "            " ++ content;
      "          </div>";
      "          <div style=" ++ Js.dq ++ "margin-top: 20px; padding-top: 20px; border-top: 1px solid #eee; font-size: 12px; color: #666;" ++ Js.dq ++ ">";
      "            <p>This email was sent from " ++ domain ++ "</p>";
      "            <p>If you received this email in error, please ignore it.</p>";
      "          </div>";
      "        </div>";
      "      </body>";
      "      </html>";
      "    " ].

Definition transactionalTemplate (content domain : string) : string :=
  Js.unlines
    [ EmptyString;
      "      <!DOCTYPE html>";
      "      <html>";
      "      <head>";
      "        <meta charset=" ++ Js.dq ++ "utf-8" ++ Js.dq ++ ">";
      "        <meta name=" ++ Js.dq ++ "viewport" ++ Js.dq ++ " content=" ++ Js.dq ++ "width=device-width, initial-scale=1.0" ++ Js.dq ++ ">";
      "      </head>";
      "      <body style=" ++ Js.dq ++ "font-family: Arial, sans-serif; line-height: 1.6; color: #333;" ++ Js.dq ++ ">";
      "        <div style=" ++ Js.dq ++ "max-width: 600px; margin: 0 auto; padding: 20px;" ++ Js.dq ++ ">";
      "          " ++ content;
      "          <hr style=" ++ Js.dq ++ "margin: 30px 0; border: none; border-top: 1px solid #eee;" ++ Js.dq ++ ">";
      "          <p style=" ++ Js.dq ++ "font-size: 12px; color: #666;" ++ Js.dq ++ ">";
      "            This is a transactional email from " ++ domain;
      "          </p>";
      "        </div>";
      "      </body>";
      "      </html>";
      "    " ].

(** ** Requests, messages and results *)

(** A value found where a recipient address is expected: the request comes
    from JSON or from a direct caller of [sendEmail], so an entry may be
    [undefined], [null] or a string. *)
Inductive recipient : Type :=
| RUndefined : recipient
| RNull : recipient
| RString : string -> recipient.

(** [Boolean(v)], the predicate handed to [filter]. *)
Definition Boolean (v : recipient) : bool :=
  match v with
  | RString s => negb (String.eqb s EmptyString)
  | _ => false
  end.

(** An attachment descriptor; the pipeline passes it on untouched. *)
Record Attachment : Type := {
  filename : Js.field;
  content : Js.field;
  contentType : Js.field;
  encoding : Js.field
}.

(** The object handed to [sendEmail]: every property may be missing
    ([RUndefined] for [to], [None] elsewhere). *)
Module EmailData.
Record t : Type := {
  to : recipient;
  cc : option (list recipient);
  bcc : option (list recipient);
  subject : Js.field;
  text : Js.field;
  html : Js.field;
  templateType : Js.field;
  attachments : option (list Attachment)
}.

(** The object without any property; a missing [template] spreads like it. *)
Definition empty : t :=
  {| to := RUndefined; cc := None; bcc := None; subject := None;
     text := None; html := None; templateType := None;
     attachments := None |}.

Definition over {A : Type} (late early : option A) : option A :=
  match late with
  | Some _ => late
  | None => early
  end.

(** The object literal with two spreads: a property of [template], when
    it has it, replaces the one of [emailData]. *)
Definition spread (emailData template : t) : t :=
  {| to := match to template with
           | RUndefined => to emailData
           | v => v
           end;
     cc := over (cc template) (cc emailData);
     bcc := over (bcc template) (bcc emailData);
     subject := over (subject template) (subject emailData);
     text := over (text template) (text emailData);
     html := over (html template) (html emailData);
     templateType := over (templateType template) (templateType emailData);
     attachments := over (attachments template) (attachments emailData) |}.
End EmailData.

(** The options of [nodemailer.createTransport]. *)
Module Transport.
Record t : Type := {
  host : string;
  port : nat;
  secure : bool;
  user : Js.field;
  pass : Js.field;
  domainName : Js.field;
  keySelector : string;
  privateKey : Js.field
}.
End Transport.

(** The object [mailOptions] handed to [transporter.sendMail]. *)
Module MailOptions.
Record sender : Type := {
  name : string;
  address : Js.field
}.

Record headerSet : Type := {
  X_Mailer : string;
  X_Priority : string;
  List_Unsubscribe : string;
  Message_ID : string
}.

Record tracking : Type := {
  clickTracking : bool;
  openTracking : bool
}.

Record t : Type := {
  from : sender;
  to : recipient;
  cc : option (list recipient);
  bcc : option (list recipient);
  subject : Js.field;
  text : Js.field;
  html : Js.html;
  attachments : list Attachment;
  headers : headerSet;
  trackingSettings : tracking
}.
End MailOptions.

(** What the transport answers for a message it took. *)
Record Info : Type := {
  info_messageId : string;
  info_accepted : list string;
  info_rejected : list string
}.

(** The object [sendEmail] returns. *)
Record Result : Type := {
  success : bool;
  messageId : string;
  accepted : list string;
  rejected : list string
}.

(** One record of a DNS answer. *)
Record MxRecord : Type := {
  exchange : string;
  priority : nat
}.

(** The environment variables the pipeline reads. *)
Record Env : Type := {
  SMTP_HOST : Js.field;
  EMAIL_USER : Js.field;
  EMAIL_PASS : Js.field;
  DOMAIN_NAME : Js.field;
  DKIM_PRIVATE_KEY : Js.field;
  FROM_NAME : Js.field;
  FROM_EMAIL : Js.field
}.

(** What the program does to the outside, in the order it does it. *)
Inductive event : Type :=
| ResolveMx : string -> event
| SendMail : Transport.t -> MailOptions.t -> event
| ConsoleLog : string -> string -> event
| ConsoleError : string -> Js.exn -> event
| SetTimeout : nat -> event.

(** One element of the [results] array of a bulk request. *)
Inductive BulkResult : Type :=
| Sent : recipient -> string -> BulkResult
| NotSent : recipient -> string -> BulkResult.

Definition bulkEmail (r : BulkResult) : recipient :=
  match r with
  | Sent email _ => email
  | NotSent email _ => email
  end.

Definition bulkSuccess (r : BulkResult) : bool :=
  match r with
  | Sent _ _ => true
  | NotSent _ _ => false
  end.

(** The property [emails] of a bulk request body: an array of objects, or
    anything else. *)
Inductive emailsField : Type :=
| NotAnArray : emailsField
| Emails : list EmailData.t -> emailsField.

Record BulkBody : Type := {
  emails : emailsField;
  template : EmailData.t
}.

(** The JSON documents the two routes answer with. *)
Inductive json : Type :=
| JsonResult : Result -> json
| JsonFailure : string -> json
| JsonResults : list BulkResult -> json.

Record Response : Type := {
  status : nat;
  body : json
}.

(** ** The outside world

    The validator package, the resolver, the SMTP transport, the clock and
    the random source are not part of the program.  They are an interface
    over a state of the world, which each call may change. *)
Class External (World : Type) : Type := {
  env : Env;
  (** [validator.isEmail] on a string *)
  isEmail : string -> bool;
  (** [dns.resolveMx]: the records, or the rejection of the promise *)
  resolveMx : string -> World -> (Js.exn + list MxRecord) * World;
  (** [transporter.sendMail] *)
  sendMail : Transport.t -> MailOptions.t -> World -> (Js.exn + Info) * World;
  (** [Date.now()] *)
  dateNow : World -> Z * World;
  (** [Math.random()], as the text a template literal makes of it *)
  mathRandom : World -> string * World
}.

Section Pipeline.

Context {World : Type} {Ext : External World}.

(** The world together with the record of what was done to it. *)
Record state : Type := {
  world : World;
  trace : list event
}.

(** Computations that change the state and return or throw. *)
Definition M (A : Type) : Type := state -> (Js.exn + A) * state.

Definition ret {A : Type} (a : A) : M A := fun st => (inr a, st).

Definition throw {A : Type} (e : Js.exn) : M A := fun st => (inl e, st).

Definition bind {A B : Type} (m : M A) (f : A -> M B) : M B :=
  fun st =>
    match m st with
    | (inr a, st') => f a st'
    | (inl e, st') => (inl e, st')
    end.

(** [try { m } catch (error) { handler(error) }] *)
Definition tryCatch {A : Type} (m : M A) (handler : Js.exn -> M A) : M A :=
  fun st =>
    match m st with
    | (inr a, st') => (inr a, st')
    | (inl e, st') => handler e st'
    end.

Definition emit (ev : event) : M unit :=
  fun st => (inr tt, {| world := world st; trace := (trace st ++ [ev])%list |}).

(** A call into the world that may fail, recorded as [ev]. *)
Definition perform {A : Type} (ev : event)
    (f : World -> (Js.exn + A) * World) : M A :=
  fun st =>
    let (r, w) := f (world st) in
    (r, {| world := w; trace := (trace st ++ [ev])%list |}).

(** A call into the world that cannot fail and leaves no record. *)
Definition observe {A : Type} (f : World -> A * World) : M A :=
  fun st =>
    let (a, w) := f (world st) in
    (inr a, {| world := w; trace := trace st |}).

Local Notation "x <- m ;; k" := (bind m (fun x => k))
  (at level 61, m at next level, right associativity).
Local Notation "m ;;; k" := (bind m (fun _ => k))
  (at level 61, right associativity).

(** *** [createTransporter] *)
Definition createTransporter : Transport.t :=
  {| Transport.host := Js.orDefault (SMTP_HOST env) "smtp.gmail.com";
     Transport.port := 587;
     Transport.secure := false;
     Transport.user := EMAIL_USER env;
     Transport.pass := EMAIL_PASS env;
     Transport.domainName := DOMAIN_NAME env;
     Transport.keySelector := "default";
     Transport.privateKey := DKIM_PRIVATE_KEY env |}.

(** *** [validateEmail] *)
Definition validateEmail (email : string) : bool :=
  isEmail email && negb (isIn (Js.toLowerCase email) denylist).

(** *** [validateDomain]

    A string without [@] has no second part; the resolver refuses
    [undefined] before any lookup, and the handler answers [false]. *)
Definition validateDomain (email : string) : M bool :=
  tryCatch
    (match nth_error (Js.splitAt email) 1 with
     | None =>
         throw (Js.TypeError
                  ("The " ++ Js.dq ++ "name" ++ Js.dq
                   ++ " argument must be of type string. Received undefined"))
     | Some domain =>
         mxRecords <- perform (ResolveMx domain) (resolveMx domain) ;;
         ret (0 <? length mxRecords)%nat
     end)
    (fun error => ret false).

(** *** [createEmailTemplate]

    The lookup [templates[type]] finds the two layouts under their names
    and, under a name of [Js.inheritedNames], the member that the template
    object inherits; that member is truthy, so it is what is returned.  For
    any other string the lookup is [undefined] and the notification layout
    is returned. *)
Definition createEmailTemplate (content : string) (type : string) : Js.html :=
  let domain := Js.orDefault (DOMAIN_NAME env) "your-domain.com" in
  if String.eqb type "notification"
  then Js.Markup (notificationTemplate content domain)
  else if String.eqb type "transactional"
  then Js.Markup (transactionalTemplate content domain)
  else if existsb (String.eqb type) Js.inheritedNames
  then Js.Inherited type
  else Js.Markup (notificationTemplate content domain).

(** *** [sendEmail], lines 170-181: the recipients *)
Definition allRecipients (to : recipient) (cc bcc : list recipient)
  : list recipient :=
  filter Boolean (to :: cc ++ bcc)%list.

(** The loop over [allRecipients].  [validator.isEmail] throws on a value
    that is no string. *)
Fixpoint validateRecipients (recipients : list recipient) : M unit :=
  match recipients with
  | [] => ret tt
  | RString email :: rest =>
      if negb (validateEmail email)
      then throw (Js.Error ("Invalid email address: " ++ email))
      else
        domainValid <- validateDomain email ;;
        if negb domainValid
        then throw (Js.Error ("Invalid domain for email: " ++ email))
        else validateRecipients rest
  | RUndefined :: _ =>
      throw (Js.TypeError "Expected a string but received a undefined")
  | RNull :: _ =>
      throw (Js.TypeError "Expected a string but received a null")
  end.

Definition orEmpty {A : Type} (l : option (list A)) : list A :=
  match l with
  | Some l' => l'
  | None => []
  end.

(** [l.length > 0 ? l : undefined] *)
Definition nonEmpty {A : Type} (l : list A) : option (list A) :=
  match l with
  | [] => None
  | _ => Some l
  end.

(** *** [sendEmail], lines 159-215: from the request to [mailOptions] *)
Definition composeMessage (emailData : EmailData.t) : M MailOptions.t :=
  let to := EmailData.to emailData in
  let cc := orEmpty (EmailData.cc emailData) in
  let bcc := orEmpty (EmailData.bcc emailData) in
  let subject := EmailData.subject emailData in
  let text := EmailData.text emailData in
  let html := EmailData.html emailData in
  let templateType := Js.toString
    (EmailData.over (EmailData.templateType emailData) (Some "notification")) in
  let attachments := orEmpty (EmailData.attachments emailData) in
  validateRecipients (allRecipients to cc bcc) ;;;
  acceptable <- (fun st => (validateEmailContent subject text (Js.orDefault html EmptyString), st)) ;;
  if negb acceptable
  then throw (Js.Error "Email content appears to be spam-like")
  else
    finalHtml <-
      (if Js.truthy html then ret (Js.Markup (Js.toString html))
       else match text with
            | None =>
                throw (Js.TypeError
                  "Cannot read properties of undefined (reading 'replace')")
            | Some t => ret (createEmailTemplate (Js.replaceNewlines t) templateType)
            end) ;;
    now <- observe dateNow ;;
    random <- observe mathRandom ;;
    ret {| MailOptions.from :=
             {| MailOptions.name := Js.orDefault (FROM_NAME env) "Your App";
                MailOptions.address := Js.orElse (FROM_EMAIL env) (EMAIL_USER env) |};
           MailOptions.to := to;
           MailOptions.cc := nonEmpty cc;
           MailOptions.bcc := nonEmpty bcc;
           MailOptions.subject := subject;
           MailOptions.text := text;
           MailOptions.html := finalHtml;
           MailOptions.attachments := attachments;
           MailOptions.headers :=
             {| MailOptions.X_Mailer := "NodeJS Email Server v1.0";
                MailOptions.X_Priority := "3";
                MailOptions.List_Unsubscribe :=
                  "<mailto:unsubscribe@" ++ Js.toString (DOMAIN_NAME env) ++ ">";
                MailOptions.Message_ID :=
                  "<" ++ NilEmpty.string_of_int (Z.to_int now) ++ "." ++ random
                  ++ "@" ++ Js.toString (DOMAIN_NAME env) ++ ">" |};
           MailOptions.trackingSettings :=
             {| MailOptions.clickTracking := false;
                MailOptions.openTracking := false |} |}.

(** *** [sendEmail], lines 217-229: the call of the transport *)
Definition deliver (transporter : Transport.t) (mailOptions : MailOptions.t)
  : M Result :=
  tryCatch
    (info <- perform (SendMail transporter mailOptions)
                     (sendMail transporter mailOptions) ;;
     emit (ConsoleLog "Email sent successfully:" (info_messageId info)) ;;;
     ret {| success := true;
            messageId := info_messageId info;
            accepted := info_accepted info;
            rejected := info_rejected info |})
    (fun error =>
       emit (ConsoleError "Email sending failed:" error) ;;;
       throw error).

Definition sendEmail (emailData : EmailData.t) : M Result :=
  let transporter := createTransporter in
  mailOptions <- composeMessage emailData ;;
  deliver transporter mailOptions.

(** *** The route [POST /send-email], once the rate limiter let the
    request through *)
Definition postSendEmail (reqBody : EmailData.t) : M Response :=
  tryCatch
    (result <- sendEmail reqBody ;;
     ret {| status := 200; body := JsonResult result |})
    (fun error =>
       ret {| status := 400; body := JsonFailure (Js.message error) |}).

(** *** The route [POST /send-bulk] *)

(** The body of the loop, for one element of [emails]; [results] is the
    array the loop pushes to. *)
Definition bulkStep (template emailData : EmailData.t)
    (results : list BulkResult) : M (list BulkResult) :=
  tryCatch
    (result <- sendEmail (EmailData.spread emailData template) ;;
     let results' :=
       (results ++ [Sent (EmailData.to emailData) (messageId result)])%list in
     emit (SetTimeout 1000) ;;;
     ret results')
    (fun error =>
       ret (results ++ [NotSent (EmailData.to emailData) (Js.message error)])%list).

Fixpoint bulkLoop (template : EmailData.t) (emails : list EmailData.t)
    (results : list BulkResult) : M (list BulkResult) :=
  match emails with
  | [] => ret results
  | emailData :: rest =>
      results' <- bulkStep template emailData results ;;
      bulkLoop template rest results'
  end.

Definition postSendBulk (reqBody : BulkBody) : M Response :=
  match emails reqBody with
  | NotAnArray =>
      ret {| status := 400;
             body := JsonFailure "Maximum 10 emails allowed per bulk request" |}
  | Emails entries =>
      if (10 <? length entries)%nat
      then ret {| status := 400;
                  body := JsonFailure "Maximum 10 emails allowed per bulk request" |}
      else
        results <- bulkLoop (template reqBody) entries [] ;;
        ret {| status := 200; body := JsonResults results |}
  end.

End Pipeline.

Arguments state World : clear implicits.
Arguments M World A : clear implicits.

(** ** A concrete world

    One instance of the interface, on which the statements below are run:
    the world is the number of calls made so far.  The domain [example.org]
    has one MX record, [nomail.example] has none, every other lookup fails;
    the transport refuses a message whose subject is [Bounce]. *)
Module Scenario.

Definition env : Env :=
  {| SMTP_HOST := None;
     EMAIL_USER := Some "mailer@example.org";
     EMAIL_PASS := Some "secret";
     DOMAIN_NAME := Some "example.org";
     DKIM_PRIVATE_KEY := None;
     FROM_NAME := None;
     FROM_EMAIL := None |}.

Definition isEmail (s : string) : bool :=
  match Js.splitAt s with
  | [loc; domain] => negb (String.eqb loc EmptyString) && Js.includes domain "."
  | _ => false
  end.

Definition resolveMx (domain : string) (w : nat)
  : (Js.exn + list MxRecord) * nat :=
  if String.eqb domain "example.org"
  then (inr [ {| exchange := "mx.example.org"; priority := 10 |} ], S w)
  else if String.eqb domain "nomail.example"
  then (inr [], S w)
  else (inl (Js.Error ("queryMx ENOTFOUND " ++ domain)), S w).

Definition addresses (rs : list recipient) : list string :=
  flat_map (fun r => match r with RString s => [s] | _ => [] end) rs.

Definition sendMail (t : Transport.t) (m : MailOptions.t) (w : nat)
  : (Js.exn + Info) * nat :=
  match MailOptions.subject m with
  | Some "Bounce" => (inl (Js.Error "Connection refused"), S w)
  | _ =>
      (inr {| info_messageId := MailOptions.Message_ID (MailOptions.headers m);
              info_accepted := addresses [MailOptions.to m];
              info_rejected := [] |}, S w)
  end.

Definition dateNow (w : nat) : Z * nat :=
  ((1700000000000 + Z.of_nat w)%Z, S w).

Definition mathRandom (w : nat) : string * nat := ("0.25", S w).

Definition external : External nat :=
  Build_External nat env isEmail resolveMx sendMail dateNow mathRandom.

Definition start : state nat := {| world := 0; trace := [] |}.

Definition transporter : Transport.t := createTransporter (Ext := external).

Definition mail (to : string) (subject text : string) : EmailData.t :=
  {| EmailData.to := RString to;
     EmailData.cc := None;
     EmailData.bcc := None;
     EmailData.subject := Some subject;
     EmailData.text := Some text;
     EmailData.html := None;
     EmailData.templateType := None;
     EmailData.attachments := None |}.

Definition welcome : EmailData.t :=
  mail "ann@example.org" "Welcome" "Hello Ann.".

Definition bounce : EmailData.t :=
  mail "bob@example.org" "Bounce" "Hello Bob.".

(** The message composed for [bounce], and the state once it is composed:
    one lookup, then the clock and the random source. *)
Definition bounceOptions : MailOptions.t :=
  {| MailOptions.from :=
       {| MailOptions.name := "Your App";
          MailOptions.address := Some "mailer@example.org" |};
     MailOptions.to := RString "bob@example.org";
     MailOptions.cc := None;
     MailOptions.bcc := None;
     MailOptions.subject := Some "Bounce";
     MailOptions.text := Some "Hello Bob.";
     MailOptions.html := Js.Markup (notificationTemplate "Hello Bob." "example.org");
     MailOptions.attachments := [];
     MailOptions.headers :=
       {| MailOptions.X_Mailer := "NodeJS Email Server v1.0";
          MailOptions.X_Priority := "3";
          MailOptions.List_Unsubscribe := "<mailto:unsubscribe@example.org>";
          MailOptions.Message_ID := "<1700000000001.0.25@example.org>" |};
     MailOptions.trackingSettings :=
       {| MailOptions.clickTracking := false;
          MailOptions.openTracking := false |} |}.

Definition bounceComposed : state nat :=
  {| world := 3; trace := [ResolveMx "example.org"] |}.

(** A bulk request of two entries; the first one bounces. *)
Definition bounceThenWelcome : BulkBody :=
  {| emails := Emails [bounce; welcome]; template := EmailData.empty |}.

(** A request with three recipients: the second one has no mail domain. *)
Definition threeRecipients : EmailData.t :=
  {| EmailData.to := RString "ann@example.org";
     EmailData.cc := Some [RNull; RString "x@nomail.example"];
     EmailData.bcc := Some [RString "late@example.org"];
     EmailData.subject := Some "Welcome";
     EmailData.text := Some "Hello all.";
     EmailData.html := None;
     EmailData.templateType := None;
     EmailData.attachments := None |}.

Definition afterAnn : state nat :=
  {| world := 1; trace := [ResolveMx "example.org"] |}.

Definition afterNomail : state nat :=
  {| world := 2;
     trace := [ResolveMx "example.org"; ResolveMx "nomail.example"] |}.

(** A request without [to], whose [cc] and [bcc] hold no address. *)
Definition noRecipient : EmailData.t :=
  {| EmailData.to := RUndefined;
     EmailData.cc := Some [RNull; RString EmptyString];
     EmailData.bcc := Some [RUndefined];
     EmailData.subject := Some "Welcome";
     EmailData.text := Some "Hello nobody.";
     EmailData.html := None;
     EmailData.templateType := None;
     EmailData.attachments := None |}.

End Scenario.

(** ** Names for the intermediate values of [validateEmailContent] *)

(** The constant [content]. *)
Definition screenedContent (subject text : Js.field) (html : string) : string :=
  Js.toLowerCase (Js.toString subject ++ " " ++ Js.toString text ++ " " ++ html).

(** The constant [suspiciousCount]. *)
Definition suspiciousCount (subject text : Js.field) (html : string) : nat :=
  length (filter (fun keyword => Js.includes (screenedContent subject text html) keyword)
                 spamKeywords).

(** The quotient [caps.length / total], for [st] the value of
    [subject + text]. *)
Definition capsRatio (st : string) : Js.number :=
  Js.div (length (Js.matchUpper st)) (String.length st).

(** ** Notions of the specification *)

Module Spec.

(** [k] is a substring of [s]. *)
Definition substringOf (k s : string) : Prop :=
  exists a b, s = a ++ k ++ b.

(** The number of positions of [s] at which [k] starts. *)
Fixpoint occurrences (k s : string) : nat :=
  (if String.prefix k s then 1 else 0) +
  match s with
  | EmptyString => 0
  | String _ s' => occurrences k s'
  end.

(** The spam phrases that occur in [content], each listed once. *)
Definition distinctPhrases (content : string) : list string :=
  nodup string_dec
    (filter (fun p => (1 <=? occurrences p content)%nat) spamKeywords).

Definition upperLetters : list ascii :=
  list_ascii_of_string "ABCDEFGHIJKLMNOPQRSTUVWXYZ".

(** The number of upper-case letters [A]..[Z] among the characters of [s]. *)
Definition uppercaseCount (s : string) : nat :=
  length (filter (fun c => existsb (Ascii.eqb c) upperLetters)
                 (list_ascii_of_string s)).

(** Upper-case letters over all characters, for a string that has some. *)
Definition uppercaseRatio (s : string) : Q :=
  (inject_Z (Z.of_nat (uppercaseCount s))
   / inject_Z (Z.of_nat (String.length s)))%Q.

Definition lowerLetters : list ascii :=
  list_ascii_of_string "abcdefghijklmnopqrstuvwxyz".

Definition toUpperChar (c : ascii) : ascii :=
  if existsb (Ascii.eqb c) lowerLetters
  then ascii_of_nat (nat_of_ascii c - 32)
  else c.

(** The case variant of [s] chosen by [mask]: the letter at a position
    where the mask says [true] is written in upper case. *)
Fixpoint withCase (mask : list bool) (s : string) {struct s} : string :=
  match s, mask with
  | EmptyString, _ => EmptyString
  | String c s', [] => String c s'
  | String c s', true :: mask' => String (toUpperChar c) (withCase mask' s')
  | String c s', false :: mask' => String c (withCase mask' s')
  end.

(** The time spent in the pauses recorded in a trace, in milliseconds. *)
Fixpoint pausedMs (tr : list event) : nat :=
  match tr with
  | [] => 0
  | SetTimeout ms :: tr' => ms + pausedMs tr'
  | _ :: tr' => pausedMs tr'
  end.

(** The call behind an event. *)
Definition eventName (ev : event) : string :=
  match ev with
  | ResolveMx _ => "dns.resolveMx"
  | SendMail _ _ => "transporter.sendMail"
  | ConsoleLog _ _ => "console.log"
  | ConsoleError _ _ => "console.error"
  | SetTimeout _ => "setTimeout"
  end.

(** The lookups that checking the addresses [l] makes, in order. *)
Definition lookupsOf (l : list string) : list event :=
  flat_map (fun email =>
              match nth_error (Js.splitAt email) 1 with
              | Some domain => [ResolveMx domain]
              | None => []
              end) l.

Section Runs.

Context {World : Type} {Ext : External World}.

(** Every address of the list passes both checks, one after the other,
    taking the state from [st] to [st']. *)
Inductive allPass : list string -> state World -> state World -> Prop :=
| allPass_nil : forall st, allPass [] st st
| allPass_cons : forall email rest st st1 st2,
    validateEmail email = true ->
    validateDomain email st = (inr true, st1) ->
    allPass rest st1 st2 ->
    allPass (email :: rest) st st2.

(** The address fails one of the two checks in state [st]; [msg] is
    the message of that check and [st'] the state it leaves. *)
Inductive failsCheck (email : string) (st : state World)
  : string -> state World -> Prop :=
| fails_syntax :
    validateEmail email = false ->
    failsCheck email st ("Invalid email address: " ++ email) st
| fails_domain : forall st',
    validateEmail email = true ->
    validateDomain email st = (inr false, st') ->
    failsCheck email st ("Invalid domain for email: " ++ email) st'.

(** The pause after a send. *)
Definition paused (st : state World) : state World :=
  {| world := world st; trace := (trace st ++ [SetTimeout 1000])%list |}.

(** The state after a refused message: the call and the error line. *)
Definition refused (t : Transport.t) (m : MailOptions.t) (error : Js.exn)
    (w : World) (st : state World) : state World :=
  {| world := w;
     trace := ((trace st ++ [SendMail t m])
               ++ [ConsoleError "Email sending failed:" error])%list |}.

(** A computation that never pauses. *)
Definition quiet {A : Type} (m : M World A) : Prop :=
  forall st r st',
    m st = (r, st') -> pausedMs (trace st') = pausedMs (trace st).

(** A bulk run, entry by entry: the entries, the state before, the
    outcomes in the same order, the state after. *)
Inductive bulkRun (template : EmailData.t)
  : list EmailData.t -> state World -> list BulkResult -> state World -> Prop :=
| bulkRun_done : forall st, bulkRun template [] st [] st
| bulkRun_sent : forall emailData rest st result st1 results st2,
    sendEmail (EmailData.spread emailData template) st = (inr result, st1) ->
    bulkRun template rest (paused st1) results st2 ->
    bulkRun template (emailData :: rest) st
            (Sent (EmailData.to emailData) (messageId result) :: results) st2
| bulkRun_failed : forall emailData rest st error st1 results st2,
    sendEmail (EmailData.spread emailData template) st = (inl error, st1) ->
    bulkRun template rest st1 results st2 ->
    bulkRun template (emailData :: rest) st
            (NotSent (EmailData.to emailData) (Js.message error) :: results) st2.

End Runs.

End Spec.

(** ** Reading a trace *)

Module Events.

(** The event is a lookup of MX records. *)
Definition isLookup (ev : event) : Prop :=
match ev with
| ResolveMx _ => True
| _ => False
end.

(** The messages handed to the transport, in the order of the calls. *)
Fixpoint sentMessages (tr : list event) : list MailOptions.t :=
match tr with
| [] => []
| SendMail _ m :: tr' => m :: sentMessages tr'
| _ :: tr' => sentMessages tr'
end.

(** The lines written to the console, in order. *)
Fixpoint consoleLines (tr : list event) : list event :=
match tr with
| [] => []
| ConsoleLog a b :: tr' => ConsoleLog a b :: consoleLines tr'
| ConsoleError a e :: tr' => ConsoleError a e :: consoleLines tr'
| _ :: tr' => consoleLines tr'
end.

(** The string has no [@]. *)
Definition noAt (s : string) : Prop := Js.includes s "@" = false.

Section Appending.

Context {World : Type} {Ext : External World}.

(** The computation only adds events to the trace, and each event it adds
    satisfies [ok]. *)
Definition appends {A : Type} (ok : event -> Prop) (m : M World A) : Prop :=
forall st r st',
  m st = (r, st') ->
  exists evs, trace st' = (trace st ++ evs)%list /\ Forall ok evs.

(** The state after an accepted message: the call and the log line. *)
Definition delivered (t : Transport.t) (m : MailOptions.t) (info : Info)
    (w : World) (st : state World) : state World :=
{| world := w;
   trace := ((trace st ++ [SendMail t m])
             ++ [ConsoleLog "Email sent successfully:" (info_messageId info)])%list |}.

(** The result [sendEmail] makes of the answer of the transport. *)
Definition resultOf (info : Info) : Result :=
{| success := true;
   messageId := info_messageId info;
   accepted := info_accepted info;
   rejected := info_rejected info |}.

End Appending.

End Events.

(** ** More requests for the concrete world *)

Module Cases.

(** The message composed for [Scenario.welcome]. *)
Definition welcomeOptions : MailOptions.t :=
{| MailOptions.from :=
     {| MailOptions.name := "Your App";
        MailOptions.address := Some "mailer@example.org" |};
   MailOptions.to := RString "ann@example.org";
   MailOptions.cc := None;
   MailOptions.bcc := None;
   MailOptions.subject := Some "Welcome";
   MailOptions.text := Some "Hello Ann.";
   MailOptions.html := Js.Markup (notificationTemplate "Hello Ann." "example.org");
   MailOptions.attachments := [];
   MailOptions.headers :=
     {| MailOptions.X_Mailer := "NodeJS Email Server v1.0";
        MailOptions.X_Priority := "3";
        MailOptions.List_Unsubscribe := "<mailto:unsubscribe@example.org>";
        MailOptions.Message_ID := "<1700000000001.0.25@example.org>" |};
   MailOptions.trackingSettings :=
     {| MailOptions.clickTracking := false;
        MailOptions.openTracking := false |} |}.

(** What the transport answers for it. *)
Definition welcomeInfo : Info :=
{| info_messageId := "<1700000000001.0.25@example.org>";
   info_accepted := ["ann@example.org"];
   info_rejected := [] |}.

(** A request with a subject and an html body but no text. *)
Definition noText : EmailData.t :=
{| EmailData.to := RString "ann@example.org";
   EmailData.cc := None;
   EmailData.bcc := None;
   EmailData.subject := Some "Welcome";
   EmailData.text := None;
   EmailData.html := None;
   EmailData.templateType := None;
   EmailData.attachments := None |}.

(** A shared template that names a recipient of its own. *)
Definition toCarol : EmailData.t :=
{| EmailData.to := RString "carol@example.org";
   EmailData.cc := None;
   EmailData.bcc := None;
   EmailData.subject := None;
   EmailData.text := None;
   EmailData.html := None;
   EmailData.templateType := Some "transactional";
   EmailData.attachments := None |}.

Definition bulkToCarol : BulkBody :=
{| emails := Emails [Scenario.welcome; Scenario.bounce]; template := toCarol |}.

End Cases.

(** * Properties *)

(** ** Strings *)

Lemma prefix_app (k s : string) :
  String.prefix k s = true <-> exists b, s = k ++ b.
Proof.
  revert s. induction k as [|c k IH]; intros s; simpl.
  - destruct s; split; eauto.
  - destruct s as [|d s]; simpl.
    + split; [discriminate | intros [b Hb]; discriminate].
    + destruct (ascii_dec c d) as [->|Hcd].
      * rewrite IH. split; intros [b Hb]; exists b; [now rewrite Hb | now inversion Hb].
      * split; [discriminate | intros [b Hb]; inversion Hb; congruence].
Qed.

Lemma includes_substring (s k : string) :
  Js.includes s k = true <-> Spec.substringOf k s.
Proof.
  unfold Spec.substringOf.
  induction s as [|c s IH].
  - cbn [Js.includes]. rewrite orb_false_r, prefix_app. split.
    + intros [b Hb]. exists EmptyString, b. exact Hb.
    + intros [a [b Hab]]. destruct a; [eauto | discriminate].
  - cbn [Js.includes]. rewrite orb_true_iff, prefix_app, IH. split.
    + intros [[b Hb] | [a [b Hab]]].
      * exists EmptyString, b. exact Hb.
      * exists (String c a), b. simpl. now rewrite Hab.
    + intros [a [b Hab]]. destruct a as [|c' a].
      * left. exists b. exact Hab.
      * right. exists a, b. simpl in Hab. now inversion Hab.
Qed.

Lemma includes_occurrences (s k : string) :
  Js.includes s k = (1 <=? Spec.occurrences k s)%nat.
Proof.
  induction s as [|c s IH].
  - cbn [Js.includes Spec.occurrences].
    destruct (String.prefix k EmptyString); reflexivity.
  - cbn [Js.includes Spec.occurrences]. rewrite IH.
    destruct (String.prefix k (String c s)); simpl.
    + reflexivity.
    + reflexivity.
Qed.

Lemma spamKeywords_NoDup : NoDup spamKeywords.
Proof.
  assert (H : nodup string_dec spamKeywords = spamKeywords) by (vm_compute; reflexivity).
  rewrite <- H. apply NoDup_nodup.
Qed.

Lemma distinctPhrases_filter (content : string) :
  Spec.distinctPhrases content =
  filter (fun keyword => Js.includes content keyword) spamKeywords.
Proof.
  unfold Spec.distinctPhrases.
  rewrite nodup_fixed_point by (apply NoDup_filter, spamKeywords_NoDup).
  apply filter_ext. intros p. symmetry. apply includes_occurrences.
Qed.

Lemma suspiciousCount_distinct (subject text : Js.field) (html : string) :
  suspiciousCount subject text html =
  length (Spec.distinctPhrases (screenedContent subject text html)).
Proof. unfold suspiciousCount. now rewrite distinctPhrases_filter. Qed.

Lemma isUpperAZ_letters (c : ascii) :
  Js.isUpperAZ c = existsb (Ascii.eqb c) Spec.upperLetters.
Proof.
  destruct c as [[] [] [] [] [] [] [] []]; vm_compute; reflexivity.
Qed.

Lemma matchUpper_count (s : string) :
  length (Js.matchUpper s) = Spec.uppercaseCount s.
Proof.
  unfold Spec.uppercaseCount.
  induction s as [|c s IH]; [reflexivity|].
  cbn [Js.matchUpper list_ascii_of_string filter].
  rewrite <- isUpperAZ_letters.
  destruct (Js.isUpperAZ c); simpl; now rewrite IH.
Qed.

Lemma matchUpper_le (s : string) :
  length (Js.matchUpper s) <= String.length s.
Proof.
  induction s as [|c s IH]; simpl; [lia|].
  destruct (Js.isUpperAZ c); simpl; lia.
Qed.

(** ** Numbers *)

Lemma gt_div_cross (caps total : nat) :
  caps <= total ->
  Js.gt (Js.div caps total) capsThreshold = true <-> 3 * total < 10 * caps.
Proof.
  intros Hle. unfold Js.div, Js.gt, capsThreshold.
  destruct total as [|n].
  - assert (caps = 0) by lia. subst. split; [discriminate | lia].
  - rewrite negb_true_iff, <- not_true_iff_false, Qle_bool_iff.
    unfold Qle. cbn [Qnum Qden].
    assert (Hp : Z.pos (Pos.of_nat (S n)) = Z.of_nat (S n)).
    { rewrite <- Znat.positive_nat_Z, Nat2Pos.id by discriminate. reflexivity. }
    rewrite Hp. split; intros H; lia.
Qed.

Lemma gt_div_ratio (caps total : nat) :
  caps <= total ->
  Js.gt (Js.div caps total) capsThreshold = true <->
  0 < total /\
  (capsThreshold < inject_Z (Z.of_nat caps) / inject_Z (Z.of_nat total))%Q.
Proof.
  intros Hle. rewrite gt_div_cross by exact Hle.
  unfold capsThreshold. split.
  - intros H. split; [lia|].
    apply Qlt_shift_div_l.
    + change 0%Q with (inject_Z 0). rewrite <- Zlt_Qlt. lia.
    + unfold Qlt, Qmult, inject_Z. cbn [Qnum Qden]. lia.
  - intros [Hpos H].
    assert (H0 : (0 < inject_Z (Z.of_nat total))%Q).
    { change 0%Q with (inject_Z 0). rewrite <- Zlt_Qlt. lia. }
    apply (Qmult_lt_compat_r _ _ _ H0) in H.
    unfold Qdiv in H. rewrite <- Qmult_assoc in H.
    rewrite (Qmult_comm (/ _)), Qmult_inv_r, Qmult_1_r in H.
    + unfold Qlt, Qmult, inject_Z in H. cbn [Qnum Qden] in H. lia.
    + intros E. rewrite E in H0. discriminate.
Qed.

(** ** The content screener *)

(** On strings the screener never throws: it is the conjunction of its two
    rules. *)
Lemma isAcceptable_rules (subject text html : string) :
  isAcceptable subject text html =
  inr (negb (2 <? suspiciousCount (Some subject) (Some text) html)%nat
       && negb (Js.gt (capsRatio (subject ++ text)) capsThreshold)).
Proof.
  unfold isAcceptable, validateEmailContent, suspiciousCount, screenedContent,
    capsRatio. cbn [Js.plus Js.toString].
  destruct (2 <? _)%nat; [reflexivity|].
  destruct (Js.gt _ _); reflexivity.
Qed.

Lemma isAcceptable_false (subject text html : string) :
  isAcceptable subject text html = inr false <->
  2 < suspiciousCount (Some subject) (Some text) html \/
  Js.gt (capsRatio (subject ++ text)) capsThreshold = true.
Proof.
  rewrite isAcceptable_rules.
  destruct (Nat.ltb_spec 2 (suspiciousCount (Some subject) (Some text) html))
    as [Hlt|Hge];
    destruct (Js.gt _ _); cbn [negb andb]; split; intros H;
    first [ reflexivity
          | left; exact Hlt
          | right; reflexivity
          | discriminate H
          | destruct H as [H|H]; [lia | discriminate H] ].
Qed.

(** No spam phrase starts with a blank. *)
Lemma prefix_after_blank (k s : string) :
  In k spamKeywords -> String.prefix k (String " " s) = false.
Proof.
  intros H. unfold spamKeywords in H. cbn [In] in H.
  intuition (subst k; reflexivity).
Qed.

Lemma filter_ext_In_keywords (f g : string -> bool) (l : list string) :
  (forall k, In k l -> f k = g k) -> filter f l = filter g l.
Proof.
  induction l as [|k l IH]; intros H; [reflexivity|].
  cbn [filter]. rewrite (H k) by (left; reflexivity).
  rewrite IH by (intros k' Hk'; apply H; right; exact Hk'). reflexivity.
Qed.

Lemma suspiciousCount_empty_subject_text (html : string) :
  suspiciousCount (Some EmptyString) (Some EmptyString) html =
  length (Spec.distinctPhrases (Js.toLowerCase html)).
Proof.
  rewrite distinctPhrases_filter. unfold suspiciousCount, screenedContent.
  apply (f_equal (@length string)).
  apply filter_ext_In_keywords. intros k Hk.
  cbn [Js.toString String.append Js.toLowerCase].
  change (Js.toLowerChar " ") with " "%char.
  cbn [Js.includes]. now rewrite !prefix_after_blank by exact Hk.
Qed.

(** C1, as the code has it: the subject [Free Money!!! Click here now to win]
    with empty text and empty html is accepted.  It contains two spam
    phrases, which does not exceed the threshold of two, and three capital
    letters among thirty-five characters. *)
Theorem free_money_subject_is_accepted :
  isAcceptable "Free Money!!! Click here now to win" "" "" = inr true
  /\ Spec.distinctPhrases
       (screenedContent (Some "Free Money!!! Click here now to win") (Some "") "")
     = ["free money"; "click here now"]
  /\ suspiciousCount (Some "Free Money!!! Click here now to win") (Some "") "" = 2
  /\ length (Js.matchUpper ("Free Money!!! Click here now to win" ++ "")) = 3
  /\ String.length ("Free Money!!! Click here now to win" ++ "") = 35.
Proof. repeat split; vm_compute; reflexivity. Qed.

(** C1, as the claim states it, fails: the screener does not return [false]
    on that input. *)
Lemma free_money_subject_not_rejected :
  isAcceptable "Free Money!!! Click here now to win" "" "" = inr true
  /\ isAcceptable "Free Money!!! Click here now to win" "" "" <> inr false.
Proof. split; vm_compute; [reflexivity | discriminate]. Qed.

(** C6: the keyword rule of the screener rejects exactly when more than two
    distinct spam phrases are substrings of the lower-cased concatenation
    [subject + " " + text + " " + html].  The phrases found form a list
    without repetition, so a phrase that occurs several times counts once;
    when the rule does not reject, the verdict is the capitalization rule's. *)
Theorem keyword_rule_counts_distinct_phrases (subject text html : string) :
  let content := Js.toLowerCase (subject ++ " " ++ text ++ " " ++ html) in
  let found := Spec.distinctPhrases content in
  NoDup found
  /\ (forall p, In p found <-> In p spamKeywords /\ Spec.substringOf p content)
  /\ (forall p, In p found -> 1 <= Spec.occurrences p content)
  /\ suspiciousCount (Some subject) (Some text) html = length found
  /\ isAcceptable subject text html =
     inr (negb (2 <? length found)%nat
          && negb (Js.gt (capsRatio (subject ++ text)) capsThreshold)).
Proof.
  intros content found.
  assert (Hf : found = filter (fun k => Js.includes content k) spamKeywords)
    by apply distinctPhrases_filter.
  assert (Hc : suspiciousCount (Some subject) (Some text) html = length found)
    by apply suspiciousCount_distinct.
  repeat split.
  - apply NoDup_nodup.
  - rewrite Hf in H. apply filter_In in H. tauto.
  - rewrite Hf in H. apply filter_In in H. apply includes_substring. tauto.
  - intros [Hk Hs]. rewrite Hf. apply filter_In. split; [exact Hk|].
    apply includes_substring. exact Hs.
  - intros p Hp. rewrite Hf in Hp. apply filter_In in Hp.
    destruct Hp as [_ Hp]. rewrite includes_occurrences in Hp.
    apply Nat.leb_le. exact Hp.
  - exact Hc.
  - rewrite isAcceptable_rules, Hc. reflexivity.
Qed.

(** A phrase repeated three times is one phrase: the message passes. *)
Example repeated_phrase_counts_once :
  Spec.occurrences "free money" "free money free money free money" = 3
  /\ suspiciousCount (Some "free money free money free money") (Some "") "" = 1
  /\ isAcceptable "free money free money free money" "" "" = inr true.
Proof. repeat split; vm_compute; reflexivity. Qed.

(** C7: the capitalization rule looks at [subject + text] as given, not
    lower-cased and without [html].  The screener rejects exactly when the
    keyword rule does or when that string is not empty and the number of its
    letters [A]..[Z] divided by its length exceeds 0.3; two html bodies that
    both pass the keyword rule get the same verdict. *)
Theorem capitalization_rule_ratio (subject text html : string) :
  let st := subject ++ text in
  (isAcceptable subject text html = inr false <->
     2 < suspiciousCount (Some subject) (Some text) html \/
     (0 < String.length st /\ (capsThreshold < Spec.uppercaseRatio st)%Q))
  /\ (isAcceptable subject text html = inr false <->
        2 < suspiciousCount (Some subject) (Some text) html \/
        3 * String.length st < 10 * Spec.uppercaseCount st)
  /\ (forall html',
        suspiciousCount (Some subject) (Some text) html <= 2 ->
        suspiciousCount (Some subject) (Some text) html' <= 2 ->
        isAcceptable subject text html = isAcceptable subject text html').
Proof.
  intros st. split; [|split].
  - rewrite isAcceptable_false. unfold capsRatio, Spec.uppercaseRatio.
    rewrite gt_div_ratio by apply matchUpper_le.
    fold st. rewrite matchUpper_count. reflexivity.
  - rewrite isAcceptable_false. unfold capsRatio.
    rewrite gt_div_cross by apply matchUpper_le.
    fold st. rewrite matchUpper_count. reflexivity.
  - intros html' H1 H2. rewrite !isAcceptable_rules.
    apply Nat.ltb_ge in H1, H2. rewrite H1, H2. reflexivity.
Qed.

(** C10: with the empty subject and the empty text the quotient is [0/0],
    that is [NaN], and [NaN > 0.3] is false; so every html that holds at most
    two distinct spam phrases is accepted. *)
Theorem empty_subject_text_capitalization_never_rejects (html : string) :
  length (Spec.distinctPhrases (Js.toLowerCase html)) <= 2 ->
  capsRatio ("" ++ "") = Js.NaN
  /\ Js.gt Js.NaN capsThreshold = false
  /\ isAcceptable "" "" html = inr true.
Proof.
  intros H. repeat split.
  rewrite isAcceptable_rules, suspiciousCount_empty_subject_text.
  apply Nat.ltb_ge in H. rewrite H. reflexivity.
Qed.

Lemma empty_subject_text_capitalization_never_rejects_witness :
  length (Spec.distinctPhrases (Js.toLowerCase "<p>OK</p>")) <= 2
  /\ isAcceptable "" "" "<p>OK</p>" = inr true.
Proof.
  assert (H : length (Spec.distinctPhrases (Js.toLowerCase "<p>OK</p>")) <= 2).
  { vm_compute. lia. }
  split; [exact H|].
  apply (empty_subject_text_capitalization_never_rejects "<p>OK</p>" H).
Defined.

(** ** The recipient validator *)

Lemma toLowerChar_toUpperChar (c : ascii) :
  Js.toLowerChar c = c -> Js.toLowerChar (Spec.toUpperChar c) = c.
Proof.
  destruct c as [[] [] [] [] [] [] [] []]; vm_compute; intros H;
    first [ reflexivity | discriminate H ].
Qed.

Lemma toLowerCase_withCase (mask : list bool) (s : string) :
  Js.toLowerCase s = s -> Js.toLowerCase (Spec.withCase mask s) = s.
Proof.
  revert mask. induction s as [|c s IH]; intros mask H; [reflexivity|].
  cbn [Js.toLowerCase] in H. injection H as Hc Hs.
  destruct mask as [|[] mask]; cbn [Spec.withCase Js.toLowerCase].
  - now rewrite Hc, Hs.
  - now rewrite toLowerChar_toUpperChar, IH.
  - now rewrite Hc, IH.
Qed.

Lemma denylist_lower (d : string) : In d denylist -> Js.toLowerCase d = d.
Proof.
  intros H. unfold denylist in H. cbn [In] in H.
  intuition (subst d; reflexivity).
Qed.

Lemma isIn_In (str : string) (values : list string) :
  isIn str values = true <-> In str values.
Proof.
  unfold isIn. rewrite existsb_exists. split.
  - intros [x [Hx Heq]]. apply String.eqb_eq in Heq. now subst.
  - intros H. exists str. split; [exact H | apply String.eqb_refl].
Qed.

Section RecipientValidator.

Context {World : Type} {Ext : External World}.

Lemma validateEmail_true (email : string) :
  validateEmail email = true <->
  isEmail email = true /\ ~ In (Js.toLowerCase email) denylist.
Proof.
  unfold validateEmail.
  rewrite andb_true_iff, negb_true_iff, <- not_true_iff_false, isIn_In.
  reflexivity.
Qed.

(** C8: an address whose lower-case form is one of [test@test.com],
    [example@example.com], [admin@admin.com] is refused, whatever the
    world says of its syntax or of its domain; so is every case variant of
    the three; and [validateEmail] answers [true] exactly for the
    addresses that [isEmail] takes and that are not on the list. *)
Theorem denylisted_addresses_refused :
  (forall email,
      In (Js.toLowerCase email) denylist -> validateEmail email = false)
  /\ (forall d mask,
        In d denylist -> validateEmail (Spec.withCase mask d) = false)
  /\ (forall email,
        validateEmail email = true <->
        isEmail email = true /\ ~ In (Js.toLowerCase email) denylist).
Proof.
  assert (H1 : forall email,
             In (Js.toLowerCase email) denylist -> validateEmail email = false).
  { intros email H. apply not_true_iff_false. rewrite validateEmail_true. tauto. }
  split; [exact H1 | split].
  - intros d mask Hd. apply H1.
    rewrite toLowerCase_withCase by (apply denylist_lower; exact Hd).
    exact Hd.
  - apply validateEmail_true.
Qed.

End RecipientValidator.

Example denylisted_variants :
  Spec.withCase [true; false; false; true; false; true] "test@test.com" = "TesT@Test.com"
  /\ validateEmail (Ext := Scenario.external) "TesT@Test.com" = false
  /\ validateEmail (Ext := Scenario.external) "ADMIN@ADMIN.COM" = false
  /\ validateEmail (Ext := Scenario.external) "ann@example.org" = true.
Proof. repeat split; vm_compute; reflexivity. Qed.

(** ** The loop over the recipients *)

Ltac run_monad :=
  unfold bind, ret, throw, tryCatch, emit, perform, observe in *.

Lemma pausedMs_app (tr1 tr2 : list event) :
  Spec.pausedMs (tr1 ++ tr2) = Spec.pausedMs tr1 + Spec.pausedMs tr2.
Proof.
  induction tr1 as [|ev tr1 IH]; [reflexivity|].
  destruct ev; cbn [Spec.pausedMs app]; rewrite IH; lia.
Qed.

Lemma filter_Boolean_strings (l : list recipient) :
  exists addrs, filter Boolean l = map RString addrs
                /\ Forall (fun a => a <> EmptyString) addrs.
Proof.
  induction l as [|v l [addrs [IH HF]]].
  - exists []. split; [reflexivity | constructor].
  - destruct v as [| |s]; cbn [filter Boolean]; try (exists addrs; now split).
    destruct (String.eqb_spec s EmptyString) as [->|Hs]; cbn [negb].
    + exists addrs. now split.
    + exists (s :: addrs). split; [now rewrite IH | now constructor].
Qed.

Lemma filter_Boolean_falsy (l : list recipient) :
  Forall (fun v => Boolean v = false) l -> filter Boolean l = [].
Proof.
  induction 1 as [|v l Hv Hl IH]; [reflexivity|].
  cbn [filter]. rewrite Hv. exact IH.
Qed.

Section RecipientLoop.

Context {World : Type} {Ext : External World}.

(** [validateDomain] always answers, and looks up at most the domain
    of its argument. *)
Lemma validateDomain_answers (email : string) (st : state World) :
  exists b st',
    validateDomain email st = (inr b, st')
    /\ trace st' = (trace st ++ Spec.lookupsOf [email])%list.
Proof.
  unfold validateDomain, Spec.lookupsOf. cbn [flat_map]. run_monad.
  destruct (nth_error (Js.splitAt email) 1) as [domain|].
  - destruct (resolveMx domain (world st)) as [[e|records] w]; cbn.
    + eexists _, _. split; [reflexivity|]. cbn. rewrite ?app_nil_r. reflexivity.
    + eexists _, _. split; [reflexivity|]. cbn. rewrite ?app_nil_r. reflexivity.
  - exists false, st. split; [reflexivity|]. cbn. rewrite ?app_nil_r. reflexivity.
Qed.

Lemma allPass_trace (l : list string) (st st' : state World) :
  Spec.allPass l st st' ->
  trace st' = (trace st ++ Spec.lookupsOf l)%list.
Proof.
  induction 1 as [st | email rest st st1 st2 Hv Hd Hrest IH].
  - cbn. now rewrite app_nil_r.
  - destruct (validateDomain_answers email st) as [b [st'' [E1 E2]]].
    rewrite Hd in E1. injection E1 as _ <-.
    rewrite IH, E2. unfold Spec.lookupsOf. cbn [flat_map].
    now rewrite app_nil_r, app_assoc.
Qed.

Lemma failsCheck_trace (email msg : string) (st st' : state World) :
  Spec.failsCheck email st msg st' ->
  trace st' = trace st \/ trace st' = (trace st ++ Spec.lookupsOf [email])%list.
Proof.
  intros [Hv | st'' Hv Hd].
  - left. reflexivity.
  - right. destruct (validateDomain_answers email st) as [b [st1 [E1 E2]]].
    rewrite Hd in E1. injection E1 as _ <-. exact E2.
Qed.

Lemma failsCheck_message (email msg : string) (st st' : state World) :
  Spec.failsCheck email st msg st' -> exists what, msg = what ++ email.
Proof. intros [Hv | st'' Hv Hd]; eexists; reflexivity. Qed.

Lemma validateRecipients_pass (l : list string) (rest : list recipient)
    (st st' : state World) :
  Spec.allPass l st st' ->
  validateRecipients (map RString l ++ rest) st = validateRecipients rest st'.
Proof.
  induction 1 as [st | email l st st1 st2 Hv Hd Hl IH]; [reflexivity|].
  cbn [map app validateRecipients]. rewrite Hv. cbn [negb].
  unfold bind at 1. rewrite Hd. cbn [negb]. exact IH.
Qed.

Lemma validateRecipients_fail (email msg : string) (post : list recipient)
    (st st' : state World) :
  Spec.failsCheck email st msg st' ->
  validateRecipients (RString email :: post) st = (inl (Js.Error msg), st').
Proof.
  intros [Hv | st'' Hv Hd]; cbn [validateRecipients]; rewrite Hv; cbn [negb].
  - reflexivity.
  - unfold bind. rewrite Hd. reflexivity.
Qed.

(** Either every address passes, or there is a first one that fails. *)
Lemma recipients_pass_or_first_failure (l : list string) (st : state World) :
  (exists st', Spec.allPass l st st'
               /\ validateRecipients (map RString l) st = (inr tt, st'))
  \/ (exists pre email post st1 msg st2,
         l = (pre ++ email :: post)%list
         /\ Spec.allPass pre st st1
         /\ Spec.failsCheck email st1 msg st2).
Proof.
  revert st. induction l as [|email l IH]; intros st.
  - left. exists st. split; [constructor | reflexivity].
  - destruct (validateEmail email) eqn:Hv.
    + destruct (validateDomain_answers email st) as [b [st1 [Hd _]]].
      destruct b.
      * destruct (IH st1) as [[st' [Hp Hr]] | [pre [e [post [sa [msg [sb [El [Hp Hf]]]]]]]]].
        -- left. exists st'. split; [econstructor; eassumption|].
           cbn [map validateRecipients]. rewrite Hv. cbn [negb].
           unfold bind. rewrite Hd. cbn [negb]. exact Hr.
        -- right. exists (email :: pre), e, post, sa, msg, sb.
           split; [now rewrite El|]. split; [econstructor; eassumption | exact Hf].
      * right. exists [], email, l, st, ("Invalid domain for email: " ++ email), st1.
        split; [reflexivity|]. split; [constructor|].
        now apply Spec.fails_domain.
    + right. exists [], email, l, st, ("Invalid email address: " ++ email), st.
      split; [reflexivity|]. split; [constructor|].
      now apply Spec.fails_syntax.
Qed.

Lemma composeMessage_recipients_fail (emailData : EmailData.t)
    (e : Js.exn) (st st' : state World) :
  validateRecipients
    (allRecipients (EmailData.to emailData)
                   (orEmpty (EmailData.cc emailData))
                   (orEmpty (EmailData.bcc emailData))) st = (inl e, st') ->
  composeMessage emailData st = (inl e, st').
Proof. intros H. unfold composeMessage, bind. now rewrite H. Qed.

Lemma sendEmail_compose_fail (emailData : EmailData.t)
    (e : Js.exn) (st st' : state World) :
  composeMessage emailData st = (inl e, st') ->
  sendEmail emailData st = (inl e, st').
Proof. intros H. unfold sendEmail, bind. now rewrite H. Qed.

Lemma postSendEmail_fail (emailData : EmailData.t)
    (e : Js.exn) (st st' : state World) :
  sendEmail emailData st = (inl e, st') ->
  postSendEmail emailData st =
  (inr {| status := 400; body := JsonFailure (Js.message e) |}, st').
Proof. intros H. unfold postSendEmail, tryCatch, bind, ret. now rewrite H. Qed.

(** C5: the recipients are [to], then [cc], then [bcc], in that order
    (the entries that are no address left out); they are checked one after
    the other, syntax and denylist first, then the domain.  When the
    addresses [pre] pass and the next one, [email], fails a check, the
    request ends there with the error of that check, whose message ends
    with the address; the lookups made are those of [pre] and at most the
    one of [email], whatever addresses [post] follow. *)
Theorem first_failing_recipient_aborts (emailData : EmailData.t)
    (pre : list string) (email : string) (post : list recipient)
    (msg : string) (st st1 st2 : state World) :
  let recipients :=
    allRecipients (EmailData.to emailData)
                  (orEmpty (EmailData.cc emailData))
                  (orEmpty (EmailData.bcc emailData)) in
  recipients = (map RString pre ++ RString email :: post)%list ->
  Spec.allPass pre st st1 ->
  Spec.failsCheck email st1 msg st2 ->
  recipients =
    filter Boolean (EmailData.to emailData
                    :: orEmpty (EmailData.cc emailData)
                    ++ orEmpty (EmailData.bcc emailData))%list
  /\ validateRecipients recipients st = (inl (Js.Error msg), st2)
  /\ sendEmail emailData st = (inl (Js.Error msg), st2)
  /\ postSendEmail emailData st =
     (inr {| status := 400; body := JsonFailure msg |}, st2)
  /\ (msg = "Invalid email address: " ++ email
      \/ msg = "Invalid domain for email: " ++ email)
  /\ (trace st2 = (trace st ++ Spec.lookupsOf pre)%list
      \/ trace st2 = (trace st ++ Spec.lookupsOf (pre ++ [email]))%list)
  /\ (forall post',
        validateRecipients (map RString pre ++ RString email :: post') st =
        (inl (Js.Error msg), st2)).
Proof.
  intros recipients Hrec Hpass Hfail.
  assert (Hany : forall post',
             validateRecipients (map RString pre ++ RString email :: post') st =
             (inl (Js.Error msg), st2)).
  { intros post'. rewrite (validateRecipients_pass _ _ _ _ Hpass).
    now apply validateRecipients_fail. }
  assert (Hv : validateRecipients recipients st = (inl (Js.Error msg), st2))
    by (rewrite Hrec; apply Hany).
  pose proof (sendEmail_compose_fail _ _ _ _
                (composeMessage_recipients_fail _ _ _ _ Hv)) as Hs.
  split; [reflexivity|]. split; [exact Hv|]. split; [exact Hs|].
  split; [exact (postSendEmail_fail _ _ _ _ Hs)|].
  split; [destruct Hfail; auto|].
  split; [|exact Hany].
  pose proof (allPass_trace _ _ _ Hpass) as Ht1.
  destruct (failsCheck_trace _ _ _ _ Hfail) as [Ht2|Ht2]; rewrite Ht2, Ht1.
  - left. reflexivity.
  - right. unfold Spec.lookupsOf. now rewrite flat_map_app, app_assoc.
Qed.

(** C9: the entries of [[to, ...cc, ...bcc]] that are falsy, that is
    [undefined], [null] and the empty string, are filtered out before the
    loop, so they are never checked and raise no error.  For every request
    the validation is that of the request with the falsy entries of [cc] and
    [bcc] taken out, and it succeeds as soon as the entries that are left
    pass; a request without [to] is validated as if [to] were not part of
    the list; a request whose entries are all falsy passes without a single
    lookup. *)
Theorem falsy_recipients_are_skipped (to : recipient) (cc bcc : list recipient)
    (st : state World) :
  Boolean RUndefined = false /\ Boolean RNull = false
  /\ Boolean (RString EmptyString) = false
  /\ allRecipients to cc bcc =
     allRecipients to (filter Boolean cc) (filter Boolean bcc)
  /\ validateRecipients (allRecipients to cc bcc) st =
     validateRecipients
       (allRecipients to (filter Boolean cc) (filter Boolean bcc)) st
  /\ (forall before v after,
        Boolean v = false ->
        validateRecipients (allRecipients to (before ++ v :: after) bcc) st =
        validateRecipients (allRecipients to (before ++ after) bcc) st
        /\ validateRecipients (allRecipients to cc (before ++ v :: after)) st =
           validateRecipients (allRecipients to cc (before ++ after)) st)
  /\ (forall addrs st',
        filter Boolean (to :: cc ++ bcc) = map RString addrs ->
        Spec.allPass addrs st st' ->
        validateRecipients (allRecipients to cc bcc) st = (inr tt, st'))
  /\ (Boolean to = false ->
      allRecipients to cc bcc = filter Boolean (cc ++ bcc)
      /\ allRecipients to cc bcc =
         allRecipients RUndefined (filter Boolean cc) (filter Boolean bcc)
      /\ validateRecipients (allRecipients to cc bcc) st =
         validateRecipients (filter Boolean cc ++ filter Boolean bcc) st
      /\ (Forall (fun v => Boolean v = false) (cc ++ bcc) ->
          validateRecipients (allRecipients to cc bcc) st = (inr tt, st))).
Proof.
  assert (H2 : forall l, filter Boolean (filter Boolean l) = filter Boolean l).
  { intros l. induction l as [|v l IH]; [reflexivity|]. cbn [filter].
    destruct (Boolean v) eqn:Hv; [|exact IH]. cbn [filter]. now rewrite Hv, IH. }
  assert (H3 : forall t c b,
             allRecipients t c b =
             allRecipients t (filter Boolean c) (filter Boolean b)).
  { intros t c b. unfold allRecipients. cbn [filter].
    rewrite !filter_app, !H2. reflexivity. }
  assert (H4 : forall before v after,
             Boolean v = false ->
             filter Boolean (before ++ v :: after) = filter Boolean (before ++ after)).
  { intros before v after Hv. rewrite !filter_app. cbn [filter]. now rewrite Hv. }
  split; [reflexivity|]. split; [reflexivity|]. split; [reflexivity|].
  split; [apply H3|]. split; [now rewrite <- H3|].
  split.
  { intros before v after Hv. split.
    - rewrite (H3 to (before ++ v :: after)%list), (H3 to (before ++ after)%list).
      now rewrite (H4 _ _ _ Hv).
    - rewrite (H3 to cc (before ++ v :: after)%list),
        (H3 to cc (before ++ after)%list).
      now rewrite (H4 _ _ _ Hv). }
  split.
  { intros addrs st' E Hp. unfold allRecipients. rewrite E.
    pose proof (validateRecipients_pass addrs [] st st' Hp) as H.
    rewrite app_nil_r in H. exact H. }
  intros Hto.
  assert (H1 : allRecipients to cc bcc = filter Boolean (cc ++ bcc)).
  { unfold allRecipients. cbn [filter]. now rewrite Hto. }
  split; [exact H1|]. split.
  - rewrite H1. unfold allRecipients. cbn [filter Boolean].
    now rewrite !filter_app, !H2.
  - split; [now rewrite H1, filter_app|].
    intros Hall. rewrite H1.
    now rewrite (filter_Boolean_falsy _ Hall).
Qed.

End RecipientLoop.

(** ** Delivery and the two routes *)

Section Delivery.

Context {World : Type} {Ext : External World}.

Local Abbreviation quiet := (Spec.quiet (World := World)).

Lemma quiet_ret {A : Type} (a : A) : quiet (ret a).
Proof. intros st r st' H. injection H as _ <-. reflexivity. Qed.

Lemma quiet_throw {A : Type} (e : Js.exn) : quiet (throw (A := A) e).
Proof. intros st r st' H. injection H as _ <-. reflexivity. Qed.

Lemma quiet_bind {A B : Type} (m : M World A) (f : A -> M World B) :
  quiet m -> (forall a, quiet (f a)) -> quiet (bind m f).
Proof.
  intros Hm Hf st r st' H. unfold bind in H.
  destruct (m st) as [[e|a] s1] eqn:E.
  - injection H as _ <-. exact (Hm _ _ _ E).
  - rewrite (Hf a _ _ _ H). exact (Hm _ _ _ E).
Qed.

Lemma quiet_tryCatch {A : Type} (m : M World A) (h : Js.exn -> M World A) :
  quiet m -> (forall e, quiet (h e)) -> quiet (tryCatch m h).
Proof.
  intros Hm Hh st r st' H. unfold tryCatch in H.
  destruct (m st) as [[e|a] s1] eqn:E.
  - rewrite (Hh e _ _ _ H). exact (Hm _ _ _ E).
  - injection H as _ <-. exact (Hm _ _ _ E).
Qed.

Lemma quiet_emit (ev : event) : Spec.pausedMs [ev] = 0 -> quiet (emit ev).
Proof.
  intros Hev st r st' H. injection H as _ <-. cbn [trace].
  rewrite pausedMs_app, Hev. lia.
Qed.

Lemma quiet_perform {A : Type} (ev : event)
    (f : World -> (Js.exn + A) * World) :
  Spec.pausedMs [ev] = 0 -> quiet (perform ev f).
Proof.
  intros Hev st r st' H. unfold perform in H.
  destruct (f (world st)) as [r0 w]. injection H as _ <-. cbn [trace].
  rewrite pausedMs_app, Hev. lia.
Qed.

Lemma quiet_observe {A : Type} (f : World -> A * World) : quiet (observe f).
Proof.
  intros st r st' H. unfold observe in H.
  destruct (f (world st)) as [a w]. injection H as _ <-. reflexivity.
Qed.

Lemma quiet_pure {A : Type} (r0 : Js.exn + A) : quiet (fun st => (r0, st)).
Proof. intros st r st' H. injection H as _ <-. reflexivity. Qed.

Lemma validateDomain_quiet (email : string) : quiet (validateDomain email).
Proof.
  unfold validateDomain. apply quiet_tryCatch; [|intros; apply quiet_ret].
  destruct (nth_error (Js.splitAt email) 1); [|apply quiet_throw].
  apply quiet_bind; [now apply quiet_perform | intros; apply quiet_ret].
Qed.

Lemma validateRecipients_quiet (l : list recipient) : quiet (validateRecipients l).
Proof.
  induction l as [|[| |email] l IH]; cbn [validateRecipients];
    try apply quiet_ret; try apply quiet_throw.
  destruct (negb (validateEmail email)); [apply quiet_throw|].
  apply quiet_bind; [apply validateDomain_quiet|].
  intros b. destruct (negb b); [apply quiet_throw | exact IH].
Qed.

Lemma composeMessage_quiet (emailData : EmailData.t) :
  quiet (composeMessage emailData).
Proof.
  unfold composeMessage.
  apply quiet_bind; [apply validateRecipients_quiet | intros _].
  apply quiet_bind; [apply quiet_pure | intros ok].
  destruct (negb ok); [apply quiet_throw|].
  apply quiet_bind.
  - destruct (Js.truthy _); [apply quiet_ret|].
    destruct (EmailData.text emailData); [apply quiet_ret | apply quiet_throw].
  - intros h. apply quiet_bind; [apply quiet_observe | intros now].
    apply quiet_bind; [apply quiet_observe | intros rnd]. apply quiet_ret.
Qed.

Lemma deliver_quiet (t : Transport.t) (m : MailOptions.t) : quiet (deliver t m).
Proof.
  unfold deliver. apply quiet_tryCatch.
  - apply quiet_bind; [now apply quiet_perform | intros info].
    apply quiet_bind; [now apply quiet_emit | intros _; apply quiet_ret].
  - intros e. apply quiet_bind; [now apply quiet_emit | intros _; apply quiet_throw].
Qed.

Lemma sendEmail_quiet (emailData : EmailData.t) : quiet (sendEmail emailData).
Proof.
  unfold sendEmail. apply quiet_bind; [apply composeMessage_quiet|].
  intros m. apply deliver_quiet.
Qed.

Lemma deliver_throws (t : Transport.t) (m : MailOptions.t) (error : Js.exn)
    (w : World) (st : state World) :
  sendMail t m (world st) = (inl error, w) ->
  deliver t m st = (inl error, Spec.refused t m error w st).
Proof.
  intros H. unfold deliver. run_monad. rewrite H. reflexivity.
Qed.

Lemma deliver_returns (t : Transport.t) (m : MailOptions.t) (info : Info)
    (w : World) (st : state World) :
  sendMail t m (world st) = (inr info, w) ->
  exists st',
    deliver t m st =
    (inr {| success := true; messageId := info_messageId info;
            accepted := info_accepted info; rejected := info_rejected info |},
     st').
Proof.
  intros H. unfold deliver. run_monad. rewrite H. eexists. reflexivity.
Qed.

Lemma bulkStep_sent (template emailData : EmailData.t)
    (acc : list BulkResult) (result : Result) (st st1 : state World) :
  sendEmail (EmailData.spread emailData template) st = (inr result, st1) ->
  bulkStep template emailData acc st =
  (inr (acc ++ [Sent (EmailData.to emailData) (messageId result)])%list,
   Spec.paused st1).
Proof. intros H. unfold bulkStep. run_monad. rewrite H. reflexivity. Qed.

Lemma bulkStep_failed (template emailData : EmailData.t)
    (acc : list BulkResult) (error : Js.exn) (st st1 : state World) :
  sendEmail (EmailData.spread emailData template) st = (inl error, st1) ->
  bulkStep template emailData acc st =
  (inr (acc ++ [NotSent (EmailData.to emailData) (Js.message error)])%list, st1).
Proof. intros H. unfold bulkStep. run_monad. rewrite H. reflexivity. Qed.

(** The loop runs to its end on every list, and is a bulk run. *)
Lemma bulkLoop_run (template : EmailData.t) (entries : list EmailData.t) :
  forall (acc : list BulkResult) (st : state World),
  exists results st',
    bulkLoop template entries acc st = (inr (acc ++ results)%list, st')
    /\ Spec.bulkRun template entries st results st'.
Proof.
  induction entries as [|emailData rest IH]; intros acc st.
  - exists [], st. split; [cbn; now rewrite app_nil_r | constructor].
  - cbn [bulkLoop]. unfold bind at 1.
    destruct (sendEmail (EmailData.spread emailData template) st)
      as [[error|result] st1] eqn:E.
    + rewrite (bulkStep_failed _ _ _ _ _ _ E).
      destruct (IH (acc ++ [NotSent (EmailData.to emailData) (Js.message error)])%list st1)
        as [results [st' [Hl Hr]]].
      eexists (_ :: results), st'. split.
      * rewrite Hl, <- app_assoc. reflexivity.
      * eapply Spec.bulkRun_failed; eassumption.
    + rewrite (bulkStep_sent _ _ _ _ _ _ E).
      destruct (IH (acc ++ [Sent (EmailData.to emailData) (messageId result)])%list
                   (Spec.paused st1))
        as [results [st' [Hl Hr]]].
      eexists (_ :: results), st'. split.
      * rewrite Hl, <- app_assoc. reflexivity.
      * eapply Spec.bulkRun_sent; eassumption.
Qed.

Lemma bulkRun_emails (template : EmailData.t) (entries : list EmailData.t)
    (results : list BulkResult) (st st' : state World) :
  Spec.bulkRun template entries st results st' ->
  map bulkEmail results = map EmailData.to entries.
Proof. induction 1; cbn [map bulkEmail]; congruence. Qed.

Lemma bulkRun_paused (template : EmailData.t) (entries : list EmailData.t)
    (results : list BulkResult) (st st' : state World) :
  Spec.bulkRun template entries st results st' ->
  Spec.pausedMs (trace st') =
  Spec.pausedMs (trace st) + 1000 * length (filter bulkSuccess results).
Proof.
  induction 1 as [st | d rest st r st1 rs st2 Hs Hr IH
                     | d rest st e st1 rs st2 Hs Hr IH].
  - cbn. lia.
  - rewrite IH. cbn [filter bulkSuccess length Spec.paused trace].
    rewrite pausedMs_app, (sendEmail_quiet _ _ _ _ Hs). cbn [Spec.pausedMs]. lia.
  - rewrite IH. cbn [filter bulkSuccess].
    rewrite (sendEmail_quiet _ _ _ _ Hs). reflexivity.
Qed.

Lemma postSendBulk_accepted (reqBody : BulkBody) (entries : list EmailData.t)
    (st : state World) :
  emails reqBody = Emails entries ->
  length entries <= 10 ->
  exists results st',
    postSendBulk reqBody st =
    (inr {| status := 200; body := JsonResults results |}, st')
    /\ Spec.bulkRun (template reqBody) entries st results st'.
Proof.
  intros He Hlen. unfold postSendBulk. rewrite He.
  apply Nat.ltb_ge in Hlen. rewrite Hlen.
  destruct (bulkLoop_run (template reqBody) entries [] st)
    as [results [st' [Hl Hr]]].
  exists results, st'. split; [|exact Hr].
  unfold bind, ret. rewrite Hl. reflexivity.
Qed.

(** C3, as the code has it: when the transport raises [error] on the
    composed message, [sendEmail] writes the error to the console and
    throws the same [error] again; it is the caller that turns it into a
    failure: the route [/send-email] answers 400 with the message of the
    error as it is, and the bulk loop records it for the entry. *)
Theorem transport_error_rethrown_then_reported (emailData : EmailData.t)
    (mailOptions : MailOptions.t) (error : Js.exn) (w : World)
    (st st1 : state World) :
  composeMessage emailData st = (inr mailOptions, st1) ->
  sendMail createTransporter mailOptions (world st1) = (inl error, w) ->
  let st2 := Spec.refused createTransporter mailOptions error w st1 in
  deliver createTransporter mailOptions st1 = (inl error, st2)
  /\ sendEmail emailData st = (inl error, st2)
  /\ postSendEmail emailData st =
     (inr {| status := 400; body := JsonFailure (Js.message error) |}, st2)
  /\ (forall template entry acc,
        EmailData.spread entry template = emailData ->
        bulkStep template entry acc st =
        (inr (acc ++ [NotSent (EmailData.to entry) (Js.message error)])%list, st2)).
Proof.
  intros Hc Ht st2.
  pose proof (deliver_throws _ _ _ _ _ Ht) as Hd. fold st2 in Hd.
  assert (Hs : sendEmail emailData st = (inl error, st2)).
  { unfold sendEmail, bind. rewrite Hc. exact Hd. }
  split; [exact Hd|]. split; [exact Hs|].
  split; [exact (postSendEmail_fail _ _ _ _ Hs)|].
  intros template entry acc Heq. apply bulkStep_failed. rewrite Heq. exact Hs.
Qed.

(** C2, as the code has it: the pause of 1000 ms stands after the push of
    a successful send, inside the [try]; an entry whose send throws goes
    to the [catch], which does not pause.  Over an accepted bulk request the
    pauses add up to 1000 ms for each entry that was sent. *)
Theorem pause_follows_successful_sends_only (reqBody : BulkBody)
    (entries : list EmailData.t) (st : state World) :
  emails reqBody = Emails entries ->
  length entries <= 10 ->
  (exists results st',
      postSendBulk reqBody st =
      (inr {| status := 200; body := JsonResults results |}, st')
      /\ Spec.bulkRun (template reqBody) entries st results st'
      /\ Spec.pausedMs (trace st') =
         Spec.pausedMs (trace st) + 1000 * length (filter bulkSuccess results))
  /\ (forall entry acc s result s1,
        sendEmail (EmailData.spread entry (template reqBody)) s = (inr result, s1) ->
        snd (bulkStep (template reqBody) entry acc s) =
        {| world := world s1; trace := (trace s1 ++ [SetTimeout 1000])%list |})
  /\ (forall entry acc s error s1,
        sendEmail (EmailData.spread entry (template reqBody)) s = (inl error, s1) ->
        snd (bulkStep (template reqBody) entry acc s) = s1).
Proof.
  intros He Hlen. split; [|split].
  - destruct (postSendBulk_accepted reqBody entries st He Hlen)
      as [results [st' [Hp Hr]]].
    exists results, st'. split; [exact Hp|]. split; [exact Hr|].
    exact (bulkRun_paused _ _ _ _ _ Hr).
  - intros entry acc s result s1 H. now rewrite (bulkStep_sent _ _ _ _ _ _ H).
  - intros entry acc s error s1 H. now rewrite (bulkStep_failed _ _ _ _ _ _ H).
Qed.


End Delivery.

(** ** The statements on the concrete world *)

Lemma first_failing_recipient_aborts_witness :
  Spec.allPass (Ext := Scenario.external)
    ["ann@example.org"] Scenario.start Scenario.afterAnn
  /\ Spec.failsCheck (Ext := Scenario.external)
       "x@nomail.example" Scenario.afterAnn
       "Invalid domain for email: x@nomail.example" Scenario.afterNomail
  /\ sendEmail (Ext := Scenario.external) Scenario.threeRecipients Scenario.start =
     (inl (Js.Error "Invalid domain for email: x@nomail.example"),
      Scenario.afterNomail)
  /\ postSendEmail (Ext := Scenario.external) Scenario.threeRecipients Scenario.start =
     (inr {| status := 400;
             body := JsonFailure "Invalid domain for email: x@nomail.example" |},
      Scenario.afterNomail).
Proof.
  assert (Hp : Spec.allPass (Ext := Scenario.external)
                 ["ann@example.org"] Scenario.start Scenario.afterAnn).
  { apply Spec.allPass_cons with (st1 := Scenario.afterAnn);
      [reflexivity | reflexivity | constructor]. }
  assert (Hf : Spec.failsCheck (Ext := Scenario.external)
                 "x@nomail.example" Scenario.afterAnn
                 "Invalid domain for email: x@nomail.example" Scenario.afterNomail).
  { apply (Spec.fails_domain (Ext := Scenario.external)); reflexivity. }
  pose proof (first_failing_recipient_aborts (Ext := Scenario.external)
                Scenario.threeRecipients ["ann@example.org"] "x@nomail.example"
                [RString "late@example.org"] _ _ _ _ eq_refl Hp Hf)
    as [_ [_ [Hs [Hr _]]]].
  split; [exact Hp|]. split; [exact Hf|]. split; [exact Hs | exact Hr].
Defined.

Lemma falsy_recipients_are_skipped_witness :
  Boolean (EmailData.to Scenario.noRecipient) = false
  /\ validateRecipients (Ext := Scenario.external)
       (allRecipients RUndefined [RNull; RString EmptyString] [RUndefined])
       Scenario.start = (inr tt, Scenario.start)
  /\ validateRecipients (Ext := Scenario.external)
       (allRecipients (RString "ann@example.org")
                      [RNull; RString EmptyString] [RUndefined])
       Scenario.start = (inr tt, Scenario.afterAnn).
Proof.
  pose proof (falsy_recipients_are_skipped (Ext := Scenario.external)
                RUndefined [RNull; RString EmptyString] [RUndefined]
                Scenario.start) as [_ [_ [_ [_ [_ [_ [_ H]]]]]]].
  pose proof (falsy_recipients_are_skipped (Ext := Scenario.external)
                (RString "ann@example.org")
                [RNull; RString EmptyString] [RUndefined]
                Scenario.start) as [_ [_ [_ [_ [_ [_ [Hvalid _]]]]]]].
  split; [reflexivity|]. split.
  - destruct (H eq_refl) as [_ [_ [_ Hall]]]. apply Hall. repeat constructor.
  - apply (Hvalid ["ann@example.org"] Scenario.afterAnn eq_refl).
    apply Spec.allPass_cons with (st1 := Scenario.afterAnn);
      [reflexivity | reflexivity | constructor].
Defined.

(** The request without any recipient goes all the way to the transport. *)
Example missing_to_reaches_transport :
  exists result st',
    sendEmail (Ext := Scenario.external) Scenario.noRecipient Scenario.start =
    (inr result, st')
    /\ success result = true
    /\ map Spec.eventName (trace st') = ["transporter.sendMail"; "console.log"].
Proof. eexists _, _. split; [vm_compute; reflexivity|]. split; reflexivity. Qed.

(** C3, as the claim states it, fails: on the message composed for the
    bouncing request the transport raises, and what [sendEmail] gives its
    caller is that exception, not a result. *)
Lemma sendEmail_propagates_transport_error :
  composeMessage (Ext := Scenario.external) Scenario.bounce Scenario.start =
  (inr Scenario.bounceOptions, Scenario.bounceComposed)
  /\ fst (sendMail (External := Scenario.external) Scenario.transporter
            Scenario.bounceOptions (world Scenario.bounceComposed)) =
     inl (Js.Error "Connection refused")
  /\ fst (deliver (Ext := Scenario.external) Scenario.transporter
            Scenario.bounceOptions Scenario.bounceComposed) =
     inl (Js.Error "Connection refused")
  /\ fst (sendEmail (Ext := Scenario.external) Scenario.bounce Scenario.start) =
     inl (Js.Error "Connection refused")
  /\ (forall result,
        fst (sendEmail (Ext := Scenario.external) Scenario.bounce Scenario.start)
        <> inr result).
Proof.
  repeat split; try (vm_compute; reflexivity).
  intros result H. vm_compute in H. discriminate H.
Qed.

Lemma transport_error_rethrown_then_reported_witness :
  composeMessage (Ext := Scenario.external) Scenario.bounce Scenario.start =
  (inr Scenario.bounceOptions, Scenario.bounceComposed)
  /\ sendMail (External := Scenario.external) Scenario.transporter
       Scenario.bounceOptions (world Scenario.bounceComposed) =
     (inl (Js.Error "Connection refused"), 4)
  /\ postSendEmail (Ext := Scenario.external) Scenario.bounce Scenario.start =
     (inr {| status := 400; body := JsonFailure "Connection refused" |},
      Spec.refused Scenario.transporter Scenario.bounceOptions
        (Js.Error "Connection refused") 4 Scenario.bounceComposed).
Proof.
  assert (Hc : composeMessage (Ext := Scenario.external) Scenario.bounce Scenario.start =
               (inr Scenario.bounceOptions, Scenario.bounceComposed))
    by (vm_compute; reflexivity).
  assert (Ht : sendMail (External := Scenario.external) Scenario.transporter
                 Scenario.bounceOptions (world Scenario.bounceComposed) =
               (inl (Js.Error "Connection refused"), 4))
    by reflexivity.
  split; [exact Hc|]. split; [exact Ht|].
  exact (proj1 (proj2 (proj2
           (transport_error_rethrown_then_reported (Ext := Scenario.external)
              Scenario.bounce Scenario.bounceOptions
              (Js.Error "Connection refused") 4
              Scenario.start Scenario.bounceComposed Hc Ht)))).
Defined.

(** C2, as the claim states it, fails: of the two entries the first one is
    attempted and refused by the transport, and the next thing the server
    does is the lookup for the second entry; the only pause is the one after
    the second entry, 1000 ms and not 2000 ms. *)
Lemma no_pause_after_failed_send :
  (exists results,
      fst (postSendBulk (Ext := Scenario.external)
             Scenario.bounceThenWelcome Scenario.start) =
      inr {| status := 200; body := JsonResults results |}
      /\ map bulkSuccess results = [false; true])
  /\ map Spec.eventName
       (trace (snd (postSendBulk (Ext := Scenario.external)
                      Scenario.bounceThenWelcome Scenario.start))) =
     [ "dns.resolveMx"; "transporter.sendMail"; "console.error";
       "dns.resolveMx"; "transporter.sendMail"; "console.log"; "setTimeout" ]
  /\ Spec.pausedMs
       (trace (snd (postSendBulk (Ext := Scenario.external)
                      Scenario.bounceThenWelcome Scenario.start))) = 1000
  /\ Spec.pausedMs
       (trace (snd (postSendBulk (Ext := Scenario.external)
                      Scenario.bounceThenWelcome Scenario.start))) <> 2 * 1000.
Proof.
  split; [|split; [|split]].
  - eexists. split; vm_compute; reflexivity.
  - vm_compute. reflexivity.
  - vm_compute. reflexivity.
  - vm_compute. discriminate.
Qed.

Lemma pause_follows_successful_sends_only_witness :
  emails Scenario.bounceThenWelcome = Emails [Scenario.bounce; Scenario.welcome]
  /\ length [Scenario.bounce; Scenario.welcome] <= 10
  /\ exists results st',
       postSendBulk (Ext := Scenario.external)
         Scenario.bounceThenWelcome Scenario.start =
       (inr {| status := 200; body := JsonResults results |}, st')
       /\ Spec.pausedMs (trace st') =
          Spec.pausedMs (trace Scenario.start)
          + 1000 * length (filter bulkSuccess results).
Proof.
  assert (Hlen : length [Scenario.bounce; Scenario.welcome] <= 10)
    by (repeat constructor).
  split; [reflexivity|]. split; [exact Hlen|].
  destruct (pause_follows_successful_sends_only (Ext := Scenario.external)
              Scenario.bounceThenWelcome [Scenario.bounce; Scenario.welcome]
              Scenario.start eq_refl Hlen)
    as [[results [st' [Hp [_ Hms]]]] _].
  exists results, st'. split; [exact Hp | exact Hms].
Defined.

(** Eleven entries are refused before anything is done; two entries, the
    first of which is refused by the transport, give two outcomes in the
    order of the entries. *)
Example bulk_of_eleven_refused :
  postSendBulk (Ext := Scenario.external)
    {| emails := Emails (repeat Scenario.welcome 11);
       template := EmailData.empty |} Scenario.start =
  (inr {| status := 400;
          body := JsonFailure "Maximum 10 emails allowed per bulk request" |},
   Scenario.start).
Proof. reflexivity. Qed.

Example bulk_of_two_outcomes :
  fst (postSendBulk (Ext := Scenario.external)
         Scenario.bounceThenWelcome Scenario.start) =
  inr {| status := 200;
         body := JsonResults
                   [ NotSent (RString "bob@example.org") "Connection refused";
                     Sent (RString "ann@example.org")
                          "<1700000000005.0.25@example.org>" ] |}.
Proof. vm_compute. reflexivity. Qed.

(** * Further properties of the code *)

(** ** Strings *)

Lemma string_app_assoc (a b c : string) : (a ++ b) ++ c = a ++ (b ++ c).
Proof. induction a as [|x a IH]; [reflexivity|]. cbn. now rewrite IH. Qed.

Lemma string_app_nil_r (a : string) : a ++ EmptyString = a.
Proof. induction a as [|x a IH]; [reflexivity|]. cbn. now rewrite IH. Qed.

Lemma string_length_app (a b : string) :
  String.length (a ++ b) = String.length a + String.length b.
Proof. induction a as [|x a IH]; [reflexivity|]. cbn. now rewrite IH. Qed.

Lemma toLowerChar_idem (c : ascii) :
  Js.toLowerChar (Js.toLowerChar c) = Js.toLowerChar c.
Proof. destruct c as [[] [] [] [] [] [] [] []]; vm_compute; reflexivity. Qed.

Lemma toLowerChar_not_upper (c : ascii) : Js.isUpperAZ (Js.toLowerChar c) = false.
Proof. destruct c as [[] [] [] [] [] [] [] []]; vm_compute; reflexivity. Qed.

Lemma toLowerCase_idem (s : string) :
  Js.toLowerCase (Js.toLowerCase s) = Js.toLowerCase s.
Proof.
  induction s as [|c s IH]; [reflexivity|].
  cbn [Js.toLowerCase]. now rewrite toLowerChar_idem, IH.
Qed.

Lemma toLowerCase_app (a b : string) :
  Js.toLowerCase (a ++ b) = Js.toLowerCase a ++ Js.toLowerCase b.
Proof.
  induction a as [|c a IH]; [reflexivity|].
  cbn [String.append Js.toLowerCase]. now rewrite IH.
Qed.

Lemma matchUpper_toLowerCase (s : string) : Js.matchUpper (Js.toLowerCase s) = [].
Proof.
  induction s as [|c s IH]; [reflexivity|].
  cbn [Js.toLowerCase Js.matchUpper]. now rewrite toLowerChar_not_upper.
Qed.

Lemma substringOf_here (k b : string) : Spec.substringOf k (k ++ b).
Proof. exists EmptyString, b. reflexivity. Qed.

Lemma substringOf_cons (k : string) (c : ascii) (s : string) :
  Spec.substringOf k s -> Spec.substringOf k (String c s).
Proof. intros [a [b H]]. exists (String c a), b. cbn. now rewrite H. Qed.

Lemma substringOf_app_r (k x y : string) :
  Spec.substringOf k y -> Spec.substringOf k (x ++ y).
Proof.
  intros [a [b H]]. exists (x ++ a), b. now rewrite H, string_app_assoc.
Qed.

Lemma substringOf_app_l (k x y : string) :
  Spec.substringOf k x -> Spec.substringOf k (x ++ y).
Proof.
  intros [a [b H]]. exists a, (b ++ y).
  now rewrite H, !string_app_assoc.
Qed.

Lemma includes_app_l (x y k : string) :
  Js.includes x k = true -> Js.includes (x ++ y) k = true.
Proof. rewrite !includes_substring. apply substringOf_app_l. Qed.

Lemma filter_length_mono {A : Type} (f g : A -> bool) (l : list A) :
  (forall a, f a = true -> g a = true) ->
  length (filter f l) <= length (filter g l).
Proof.
  intros H. induction l as [|a l IH]; [reflexivity|]. cbn [filter].
  destruct (f a) eqn:Ef.
  - rewrite (H a Ef). cbn. lia.
  - destruct (g a); cbn; lia.
Qed.

(** ** The screener, continued *)

Lemma screenedContent_lower (subject text html : string) :
  screenedContent (Some (Js.toLowerCase subject)) (Some (Js.toLowerCase text))
                  (Js.toLowerCase html) =
  screenedContent (Some subject) (Some text) html.
Proof.
  unfold screenedContent. cbn [Js.toString].
  rewrite !toLowerCase_app, !toLowerCase_idem. reflexivity.
Qed.

(** X1: the keyword rule does not see the case of the letters, and a
    message whose subject and text are written in lower case is never
    refused for its capitals: it is accepted exactly when it holds at most
    two spam phrases. *)
Theorem keyword_rule_ignores_case (subject text html : string) :
  suspiciousCount (Some (Js.toLowerCase subject)) (Some (Js.toLowerCase text))
                  (Js.toLowerCase html) =
  suspiciousCount (Some subject) (Some text) html
  /\ isAcceptable (Js.toLowerCase subject) (Js.toLowerCase text) html =
     inr (suspiciousCount (Some subject) (Some text) html <=? 2)%nat.
Proof.
  split.
  - unfold suspiciousCount. now rewrite screenedContent_lower.
  - rewrite isAcceptable_rules. unfold capsRatio.
    rewrite <- toLowerCase_app, matchUpper_toLowerCase. cbn [length].
    assert (Hc : suspiciousCount (Some (Js.toLowerCase subject))
                   (Some (Js.toLowerCase text)) html =
                 suspiciousCount (Some subject) (Some text) html).
    { unfold suspiciousCount, screenedContent. cbn [Js.toString].
      rewrite !toLowerCase_app, !toLowerCase_idem. reflexivity. }
    rewrite Hc.
    assert (Hg : Js.gt (Js.div 0 (String.length (Js.toLowerCase (subject ++ text))))
                   capsThreshold = false).
    { apply not_true_iff_false. rewrite gt_div_cross by lia. lia. }
    rewrite Hg, andb_true_r.
    destruct (Nat.ltb_spec 2 (suspiciousCount (Some subject) (Some text) html));
      destruct (Nat.leb_spec (suspiciousCount (Some subject) (Some text) html) 2);
      first [ reflexivity | lia ].
Qed.

(** X2: text added at the end of the html body never takes a spam phrase
    away: the count, which is at most nine, can only grow, so a message that
    the keyword rule refuses stays refused. *)
Theorem keyword_count_grows_with_html (subject text : Js.field) (html more : string) :
  suspiciousCount subject text html <= suspiciousCount subject text (html ++ more)
  /\ suspiciousCount subject text html <= 9
  /\ (2 < suspiciousCount subject text html ->
      validateEmailContent subject text (html ++ more) = inr false).
Proof.
  assert (E : forall a b c d : string,
             a ++ " " ++ b ++ " " ++ (c ++ d) = (a ++ " " ++ b ++ " " ++ c) ++ d)
    by (intros; now rewrite !string_app_assoc).
  assert (Hm : suspiciousCount subject text html
               <= suspiciousCount subject text (html ++ more)).
  { unfold suspiciousCount. apply filter_length_mono. intros k Hk.
    unfold screenedContent in *. rewrite E, toLowerCase_app.
    apply includes_app_l. exact Hk. }
  split; [exact Hm|]. split.
  - unfold suspiciousCount. change 9 with (length spamKeywords).
    apply List.filter_length_le.
  - intros H. unfold validateEmailContent.
    fold (screenedContent subject text (html ++ more)).
    fold (suspiciousCount subject text (html ++ more)).
    assert (Hlt : (2 <? suspiciousCount subject text (html ++ more))%nat = true)
      by (apply Nat.ltb_lt; lia).
    rewrite Hlt. reflexivity.
Qed.

(** ** The domain of an address: [email.split('@')[1]] *)

Lemma splitAt_nonempty (s : string) : Js.splitAt s <> [].
Proof.
  induction s as [|c s IH]; cbn [Js.splitAt]; [discriminate|].
  destruct (Ascii.eqb c "@"); [discriminate|].
  destruct (Js.splitAt s); discriminate.
Qed.

Lemma concat_cons_char (sep : string) (c : ascii) (p : string) (ps : list string) :
  String.concat sep (String c p :: ps) = String c (String.concat sep (p :: ps)).
Proof. destruct ps; reflexivity. Qed.

Lemma prefix_single (k c : ascii) (s : string) :
  String.prefix (String k EmptyString) (String c s) = Ascii.eqb c k.
Proof.
  cbn [String.prefix]. destruct (ascii_dec k c) as [<-|N].
  - rewrite Ascii.eqb_refl. destruct s; reflexivity.
  - symmetry. apply Ascii.eqb_neq. congruence.
Qed.

Lemma noAt_cons (c : ascii) (s : string) :
  Events.noAt (String c s) <-> Ascii.eqb c "@" = false /\ Events.noAt s.
Proof.
  unfold Events.noAt. cbn [Js.includes].
  rewrite prefix_single, orb_false_iff. reflexivity.
Qed.



(** X3: splitting at [@] loses nothing: the parts hold no [@], and joined
    with [@] they give the string back. *)
Theorem splitAt_join (s : string) :
  String.concat "@" (Js.splitAt s) = s
  /\ Forall Events.noAt (Js.splitAt s)
  /\ length (Js.splitAt s) = S (Spec.occurrences "@" s).
Proof.
  induction s as [|c s [IH1 [IH2 IH3]]].
  - repeat split. repeat constructor.
  - cbn [Js.splitAt Spec.occurrences]. rewrite prefix_single.
    pose proof (splitAt_nonempty s) as Hne.
    destruct (Js.splitAt s) as [|p ps] eqn:E; [congruence|].
    destruct (Ascii.eqb_spec c "@") as [->|Hc].
    + split; [|split].
      * cbn [String.concat String.append]. now rewrite <- IH1.
      * constructor; [reflexivity | exact IH2].
      * cbn [length] in *. rewrite IH3. reflexivity.
    + split; [|split].
      * rewrite concat_cons_char. now rewrite IH1.
      * inversion IH2 as [|? ? Hp Hps]; subst. constructor; [|exact Hps].
        apply noAt_cons. split; [|exact Hp].
        now apply Ascii.eqb_neq.
      * cbn [length] in *. rewrite IH3. reflexivity.
Qed.



(** ** Line breaks: [text.replace(/\n/g, '<br>')] *)



(** ** Templates and the merge of a shared template *)

Ltac find_substring :=
  first [ apply substringOf_here
        | apply substringOf_cons; find_substring
        | solve [ apply substringOf_app_l; find_substring ]
        | apply substringOf_app_r; find_substring ].

Section Templates.

Context {World : Type} {Ext : External World}.

Lemma inheritedNames_In (type : string) :
  existsb (String.eqb type) Js.inheritedNames = true <-> In type Js.inheritedNames.
Proof. apply (isIn_In type Js.inheritedNames). Qed.


Lemma notificationTemplate_content (content domain : string) :
  Spec.substringOf content (notificationTemplate content domain)
  /\ Spec.substringOf domain (notificationTemplate content domain).
Proof.
  unfold notificationTemplate, Js.unlines. cbn [String.concat].
  split; cbn [String.append]; find_substring.
Qed.

Lemma transactionalTemplate_content (content domain : string) :
  Spec.substringOf content (transactionalTemplate content domain)
  /\ Spec.substringOf domain (transactionalTemplate content domain).
Proof.
  unfold transactionalTemplate, Js.unlines. cbn [String.concat].
  split; cbn [String.append]; find_substring.
Qed.


(** X6: for a type that is no name inherited from [Object.prototype], the
    html that is rendered holds the content exactly as it was given, nothing
    escaped, and the name of the sending domain, which is [your-domain.com]
    when [DOMAIN_NAME] is missing or empty; of these types every one other
    than [transactional] gets the notification layout.  Under an inherited
    name ([constructor], [toString], ...) no layout is rendered: the member
    found under that name is returned. *)
Theorem template_embeds_content_verbatim (content type : string) :
  let domain := Js.orDefault (DOMAIN_NAME env) "your-domain.com" in
  (In type Js.inheritedNames ->
   createEmailTemplate content type = Js.Inherited type)
  /\ (~ In type Js.inheritedNames ->
      exists page,
        createEmailTemplate content type = Js.Markup page
        /\ Spec.substringOf content page
        /\ Spec.substringOf domain page)
  /\ (Js.truthy (DOMAIN_NAME env) = false -> domain = "your-domain.com")
  /\ (type <> "transactional" -> ~ In type Js.inheritedNames ->
      createEmailTemplate content type =
      Js.Markup (notificationTemplate content domain))
  /\ createEmailTemplate content "transactional" =
     Js.Markup (transactionalTemplate content domain).
Proof.
  intros domain.
  pose proof (notificationTemplate_content content domain) as Hn.
  pose proof (transactionalTemplate_content content domain) as Ht.
  unfold createEmailTemplate. fold domain.
  split; [|split; [|split; [|split]]].
  - intros Hin.
    destruct (String.eqb_spec type "notification") as [->|_].
    { exfalso. cbn in Hin. intuition discriminate. }
    destruct (String.eqb_spec type "transactional") as [->|_].
    { exfalso. cbn in Hin. intuition discriminate. }
    apply inheritedNames_In in Hin. now rewrite Hin.
  - intros Hout.
    destruct (String.eqb type "notification");
      [eexists; split; [reflexivity | exact Hn]|].
    destruct (String.eqb type "transactional");
      [eexists; split; [reflexivity | exact Ht]|].
    destruct (existsb (String.eqb type) Js.inheritedNames) eqn:E.
    + apply inheritedNames_In in E. contradiction.
    + eexists; split; [reflexivity | exact Hn].
  - intros H. unfold domain, Js.orDefault, Js.orElse. now rewrite H.
  - intros H Hout. destruct (String.eqb type "notification"); [reflexivity|].
    destruct (String.eqb_spec type "transactional"); [contradiction|].
    destruct (existsb (String.eqb type) Js.inheritedNames) eqn:E;
      [apply inheritedNames_In in E; contradiction | reflexivity].
  - reflexivity.
Qed.

End Templates.

(** X7: the merge [{ ...emailData, ...template }].  For each of the
    eight properties, [to], [cc], [bcc], [subject], [text], [html],
    [templateType] and [attachments], the merged object has the one of the
    template when the template has it and the one of the entry otherwise.
    So a missing template changes nothing, merging twice with the same
    template is merging once, and merges nest. *)
Theorem spread_template_takes_precedence (emailData template later : EmailData.t) :
  let merged := EmailData.spread emailData template in
  (EmailData.to template <> RUndefined ->
   EmailData.to merged = EmailData.to template)
  /\ (EmailData.to template = RUndefined ->
      EmailData.to merged = EmailData.to emailData)
  /\ EmailData.cc merged =
     match EmailData.cc template with
     | Some v => Some v
     | None => EmailData.cc emailData
     end
  /\ EmailData.bcc merged =
     match EmailData.bcc template with
     | Some v => Some v
     | None => EmailData.bcc emailData
     end
  /\ EmailData.subject merged =
     match EmailData.subject template with
     | Some v => Some v
     | None => EmailData.subject emailData
     end
  /\ EmailData.text merged =
     match EmailData.text template with
     | Some v => Some v
     | None => EmailData.text emailData
     end
  /\ EmailData.html merged =
     match EmailData.html template with
     | Some v => Some v
     | None => EmailData.html emailData
     end
  /\ EmailData.templateType merged =
     match EmailData.templateType template with
     | Some v => Some v
     | None => EmailData.templateType emailData
     end
  /\ EmailData.attachments merged =
     match EmailData.attachments template with
     | Some v => Some v
     | None => EmailData.attachments emailData
     end
  /\ EmailData.spread emailData EmailData.empty = emailData
  /\ EmailData.spread EmailData.empty template = template
  /\ EmailData.spread merged template = merged
  /\ EmailData.spread merged later =
     EmailData.spread emailData (EmailData.spread template later).
Proof.
  destruct emailData as [to1 cc1 bcc1 su1 te1 ht1 ty1 at1].
  destruct template as [to2 cc2 bcc2 su2 te2 ht2 ty2 at2].
  destruct later as [to3 cc3 bcc3 su3 te3 ht3 ty3 at3].
  unfold EmailData.spread, EmailData.empty, EmailData.over.
  cbn [EmailData.to EmailData.cc EmailData.bcc EmailData.subject EmailData.text
       EmailData.html EmailData.templateType EmailData.attachments].
  split; [destruct to2; [contradiction | reflexivity | reflexivity]|].
  split; [intros ->; reflexivity|].
  split; [destruct cc2; reflexivity|].
  split; [destruct bcc2; reflexivity|].
  split; [destruct su2; reflexivity|].
  split; [destruct te2; reflexivity|].
  split; [destruct ht2; reflexivity|].
  split; [destruct ty2; reflexivity|].
  split; [destruct at2; reflexivity|].
  split; [reflexivity|].
  split; [destruct to2, cc2, bcc2, su2, te2, ht2, ty2, at2; reflexivity|].
  split; [destruct to2, cc2, bcc2, su2, te2, ht2, ty2, at2; reflexivity|].
  destruct to2, to3, cc2, cc3, bcc2, bcc3, su2, su3, te2, te3,
    ht2, ht3, ty2, ty3, at2, at3; reflexivity.
Qed.

(** ** What a run adds to the trace *)

Lemma sentMessages_app (tr1 tr2 : list event) :
  Events.sentMessages (tr1 ++ tr2) =
  (Events.sentMessages tr1 ++ Events.sentMessages tr2)%list.
Proof.
  induction tr1 as [|ev tr1 IH]; [reflexivity|].
  destruct ev; cbn [Events.sentMessages app]; now rewrite IH.
Qed.

Lemma consoleLines_app (tr1 tr2 : list event) :
  Events.consoleLines (tr1 ++ tr2) =
  (Events.consoleLines tr1 ++ Events.consoleLines tr2)%list.
Proof.
  induction tr1 as [|ev tr1 IH]; [reflexivity|].
  destruct ev; cbn [Events.consoleLines app]; now rewrite IH.
Qed.

Lemma lookups_send_nothing (evs : list event) :
  Forall Events.isLookup evs ->
  Events.sentMessages evs = [] /\ Events.consoleLines evs = [].
Proof.
  induction 1 as [|ev evs Hev _ [IH1 IH2]]; [split; reflexivity|].
  destruct ev; cbn in Hev; try contradiction. cbn. now split.
Qed.

Section SendRuns.

Context {World : Type} {Ext : External World}.

Local Abbreviation appends := (Events.appends (World := World)).

Lemma appends_ret {A : Type} (ok : event -> Prop) (a : A) : appends ok (ret a).
Proof.
  intros st r st' H. injection H as _ <-. exists [].
  split; [now rewrite app_nil_r | constructor].
Qed.

Lemma appends_throw {A : Type} (ok : event -> Prop) (e : Js.exn) :
  appends ok (throw (A := A) e).
Proof.
  intros st r st' H. injection H as _ <-. exists [].
  split; [now rewrite app_nil_r | constructor].
Qed.

Lemma appends_pure {A : Type} (ok : event -> Prop) (r0 : Js.exn + A) :
  appends ok (fun st => (r0, st)).
Proof.
  intros st r st' H. injection H as _ <-. exists [].
  split; [now rewrite app_nil_r | constructor].
Qed.

Lemma appends_bind {A B : Type} (ok : event -> Prop)
    (m : M World A) (f : A -> M World B) :
  appends ok m -> (forall a, appends ok (f a)) -> appends ok (bind m f).
Proof.
  intros Hm Hf st r st' H. unfold bind in H.
  destruct (m st) as [[e|a] s1] eqn:E.
  - injection H as _ <-. exact (Hm _ _ _ E).
  - destruct (Hm _ _ _ E) as [evs1 [T1 F1]].
    destruct (Hf a _ _ _ H) as [evs2 [T2 F2]].
    exists (evs1 ++ evs2)%list. split.
    + now rewrite T2, T1, app_assoc.
    + apply Forall_app. now split.
Qed.

Lemma appends_tryCatch {A : Type} (ok : event -> Prop)
    (m : M World A) (h : Js.exn -> M World A) :
  appends ok m -> (forall e, appends ok (h e)) -> appends ok (tryCatch m h).
Proof.
  intros Hm Hh st r st' H. unfold tryCatch in H.
  destruct (m st) as [[e|a] s1] eqn:E.
  - destruct (Hm _ _ _ E) as [evs1 [T1 F1]].
    destruct (Hh e _ _ _ H) as [evs2 [T2 F2]].
    exists (evs1 ++ evs2)%list. split.
    + now rewrite T2, T1, app_assoc.
    + apply Forall_app. now split.
  - injection H as _ <-. exact (Hm _ _ _ E).
Qed.

Lemma appends_perform {A : Type} (ok : event -> Prop) (ev : event)
    (f : World -> (Js.exn + A) * World) :
  ok ev -> appends ok (perform ev f).
Proof.
  intros Hev st r st' H. unfold perform in H.
  destruct (f (world st)) as [r0 w]. injection H as _ <-.
  exists [ev]. split; [reflexivity | now constructor].
Qed.

Lemma appends_observe {A : Type} (ok : event -> Prop) (f : World -> A * World) :
  appends ok (observe f).
Proof.
  intros st r st' H. unfold observe in H.
  destruct (f (world st)) as [a w]. injection H as _ <-.
  exists []. split; [cbn; now rewrite app_nil_r | constructor].
Qed.

Lemma validateDomain_appends (email : string) :
  appends Events.isLookup (validateDomain email).
Proof.
  unfold validateDomain. apply appends_tryCatch; [|intros; apply appends_ret].
  destruct (nth_error (Js.splitAt email) 1); [|apply appends_throw].
  apply appends_bind; [apply appends_perform; exact I | intros; apply appends_ret].
Qed.

Lemma validateRecipients_appends (l : list recipient) :
  appends Events.isLookup (validateRecipients l).
Proof.
  induction l as [|[| |email] l IH]; cbn [validateRecipients];
    try apply appends_ret; try apply appends_throw.
  destruct (negb (validateEmail email)); [apply appends_throw|].
  apply appends_bind; [apply validateDomain_appends|].
  intros b. destruct (negb b); [apply appends_throw | exact IH].
Qed.

Lemma composeMessage_appends (emailData : EmailData.t) :
  appends Events.isLookup (composeMessage emailData).
Proof.
  unfold composeMessage.
  apply appends_bind; [apply validateRecipients_appends | intros _].
  apply appends_bind; [apply appends_pure | intros ok].
  destruct (negb ok); [apply appends_throw|].
  apply appends_bind.
  - destruct (Js.truthy _); [apply appends_ret|].
    destruct (EmailData.text emailData); [apply appends_ret | apply appends_throw].
  - intros h. apply appends_bind; [apply appends_observe | intros now].
    apply appends_bind; [apply appends_observe | intros rnd]. apply appends_ret.
Qed.

(** X8: [validateDomain] never throws.  It answers [true] exactly when
    the address has a part after the first [@] and the lookup of that part
    comes back with at least one record; an address without [@] is refused
    without any lookup, and a lookup that fails or finds nothing is a
    refusal too. *)
Theorem validateDomain_verdict (email : string) (st : state World) :
  (exists b st',
      validateDomain email st = (inr b, st')
      /\ (b = true <->
          exists domain record records w,
            nth_error (Js.splitAt email) 1 = Some domain
            /\ resolveMx domain (world st) = (inr (record :: records), w)))
  /\ (nth_error (Js.splitAt email) 1 = None ->
      validateDomain email st = (inr false, st))
  /\ (forall domain error w,
        nth_error (Js.splitAt email) 1 = Some domain ->
        resolveMx domain (world st) = (inl error, w) ->
        validateDomain email st =
        (inr false, {| world := w; trace := (trace st ++ [ResolveMx domain])%list |})).
Proof.
  unfold validateDomain. run_monad.
  destruct (nth_error (Js.splitAt email) 1) as [domain|].
  - destruct (resolveMx domain (world st)) as [[e|[|record records]] w] eqn:E.
    + split; [|split].
      * eexists _, _. split; [reflexivity|]. split; [discriminate|].
        intros [d [r0 [rs [w0 [Hd Hr]]]]]. injection Hd as <-.
        rewrite E in Hr. discriminate Hr.
      * discriminate.
      * intros d e0 w0 Hd Hr. injection Hd as <-. rewrite E in Hr.
        injection Hr as <- <-. reflexivity.
    + split; [|split].
      * eexists _, _. split; [reflexivity|]. split; [discriminate|].
        intros [d [r0 [rs [w0 [Hd Hr]]]]]. injection Hd as <-.
        rewrite E in Hr. discriminate Hr.
      * discriminate.
      * intros d e0 w0 Hd Hr. injection Hd as <-. rewrite E in Hr.
        discriminate Hr.
    + split; [|split].
      * eexists _, _. split; [reflexivity|]. split; [|reflexivity].
        intros _. exists domain, record, records, w. now split.
      * discriminate.
      * intros d e0 w0 Hd Hr. injection Hd as <-. rewrite E in Hr.
        discriminate Hr.
  - split; [|split].
    + exists false, st. split; [reflexivity|]. split; [discriminate|].
      intros [d [r0 [rs [w0 [Hd _]]]]]. discriminate Hd.
    + reflexivity.
    + discriminate.
Qed.

(** X9: the loop over the recipients returns normally exactly when every
    address passes both checks, each one in the state the one before left;
    it then has made the lookups of the addresses in their order, one for
    each, an address that comes twice being looked up twice. *)
Theorem recipients_validated_iff_all_pass (addrs : list string)
    (st st' : state World) :
  (validateRecipients (map RString addrs) st = (inr tt, st')
   <-> Spec.allPass addrs st st')
  /\ (Spec.allPass addrs st st' ->
      trace st' = (trace st ++ Spec.lookupsOf addrs)%list)
  /\ Spec.lookupsOf (addrs ++ addrs) =
     (Spec.lookupsOf addrs ++ Spec.lookupsOf addrs)%list.
Proof.
  split; [|split].
  - split.
    + intros H.
      destruct (recipients_pass_or_first_failure addrs st)
        as [[s1 [Hp Hr]] | [pre [e [post [s1 [msg [s2 [El [Hp Hf]]]]]]]]].
      * rewrite Hr in H. injection H as <-. exact Hp.
      * rewrite El, map_app in H. cbn [map] in H.
        rewrite (validateRecipients_pass _ _ _ _ Hp) in H.
        rewrite (validateRecipients_fail _ _ _ _ _ Hf) in H. discriminate H.
    + intros Hp.
      pose proof (validateRecipients_pass addrs [] st st' Hp) as H.
      rewrite app_nil_r in H. exact H.
  - apply allPass_trace.
  - unfold Spec.lookupsOf. apply flat_map_app.
Qed.

Lemma validateRecipients_inr (d : EmailData.t) (st st1 : state World) :
  validateRecipients
    (allRecipients (EmailData.to d) (orEmpty (EmailData.cc d))
                   (orEmpty (EmailData.bcc d))) st = (inr tt, st1) ->
  exists addrs,
    allRecipients (EmailData.to d) (orEmpty (EmailData.cc d))
                  (orEmpty (EmailData.bcc d)) = map RString addrs
    /\ Forall (fun a => a <> EmptyString) addrs
    /\ Spec.allPass addrs st st1.
Proof.
  unfold allRecipients. intros H.
  destruct (filter_Boolean_strings
              (EmailData.to d :: orEmpty (EmailData.cc d) ++ orEmpty (EmailData.bcc d)))
    as [addrs [E F]].
  exists addrs. split; [exact E|]. split; [exact F|].
  rewrite E in H.
  destruct (recipients_pass_or_first_failure addrs st)
    as [[s1 [Hp Hr]] | [pre [e [post [s1 [msg [s2 [El [Hp Hf]]]]]]]]].
  - rewrite Hr in H. injection H as <-. exact Hp.
  - rewrite El, map_app in H. cbn [map] in H.
    rewrite (validateRecipients_pass _ _ _ _ Hp) in H.
    rewrite (validateRecipients_fail _ _ _ _ _ Hf) in H. discriminate H.
Qed.

(** What a successful composition went through and what it built. *)
Lemma composeMessage_inr (d : EmailData.t) (m : MailOptions.t)
    (st st' : state World) :
  composeMessage d st = (inr m, st') ->
  (exists st1,
      validateRecipients
        (allRecipients (EmailData.to d) (orEmpty (EmailData.cc d))
                       (orEmpty (EmailData.bcc d))) st = (inr tt, st1)
      /\ trace st' = trace st1)
  /\ validateEmailContent (EmailData.subject d) (EmailData.text d)
       (Js.orDefault (EmailData.html d) EmptyString) = inr true
  /\ (if Js.truthy (EmailData.html d)
      then MailOptions.html m = Js.Markup (Js.toString (EmailData.html d))
      else exists t,
          EmailData.text d = Some t
          /\ MailOptions.html m =
             createEmailTemplate (Js.replaceNewlines t)
               (Js.toString (EmailData.over (EmailData.templateType d)
                                            (Some "notification"))))
  /\ MailOptions.to m = EmailData.to d
  /\ MailOptions.cc m = nonEmpty (orEmpty (EmailData.cc d))
  /\ MailOptions.bcc m = nonEmpty (orEmpty (EmailData.bcc d))
  /\ MailOptions.subject m = EmailData.subject d
  /\ MailOptions.text m = EmailData.text d
  /\ MailOptions.attachments m = orEmpty (EmailData.attachments d)
  /\ MailOptions.trackingSettings m =
     {| MailOptions.clickTracking := false; MailOptions.openTracking := false |}
  /\ MailOptions.from m =
     {| MailOptions.name := Js.orDefault (FROM_NAME env) "Your App";
        MailOptions.address := Js.orElse (FROM_EMAIL env) (EMAIL_USER env) |}
  /\ MailOptions.X_Mailer (MailOptions.headers m) = "NodeJS Email Server v1.0"
  /\ MailOptions.X_Priority (MailOptions.headers m) = "3"
  /\ MailOptions.List_Unsubscribe (MailOptions.headers m) =
     "<mailto:unsubscribe@" ++ Js.toString (DOMAIN_NAME env) ++ ">".
Proof.
  unfold composeMessage, bind.
  destruct (validateRecipients _ st) as [[e|[]] st1] eqn:Ev; [discriminate|].
  destruct (validateEmailContent _ _ _) as [e|[|]] eqn:Ec;
    cbn [negb]; try discriminate.
  unfold observe, ret, throw.
  destruct (Js.truthy (EmailData.html d)) eqn:Eh.
  - destruct (dateNow (world st1)) as [now w1].
    destruct (mathRandom _) as [rnd w2]. cbn.
    intros H. injection H as <- <-. repeat split.
    exists st1. now split.
  - destruct (EmailData.text d) as [t|] eqn:Et; [|discriminate].
    destruct (dateNow (world st1)) as [now w1].
    destruct (mathRandom _) as [rnd w2]. cbn.
    intros H. injection H as <- <-. repeat split.
    + exists st1. now split.
    + exists t. now split.
Qed.

(** X10: a message is composed only for a request that went through both
    validations: every recipient that is an address passed the syntax,
    denylist and domain checks in turn, and the screener accepted the
    content.  Composing made the lookups of those addresses and nothing
    else. *)
Theorem composed_message_was_validated (d : EmailData.t) (m : MailOptions.t)
    (st st' : state World) :
  composeMessage d st = (inr m, st') ->
  exists addrs st1,
    allRecipients (EmailData.to d) (orEmpty (EmailData.cc d))
                  (orEmpty (EmailData.bcc d)) = map RString addrs
    /\ Forall (fun a => validateEmail a = true) addrs
    /\ Spec.allPass addrs st st1
    /\ validateEmailContent (EmailData.subject d) (EmailData.text d)
         (Js.orDefault (EmailData.html d) EmptyString) = inr true
    /\ trace st' = (trace st ++ Spec.lookupsOf addrs)%list.
Proof.
  intros H. destruct (composeMessage_inr _ _ _ _ H) as [[st1 [Hv Ht]] [Hc _]].
  destruct (validateRecipients_inr _ _ _ Hv) as [addrs [E [_ Hp]]].
  exists addrs, st1. split; [exact E|]. split.
  - clear - Hp. induction Hp; constructor; assumption.
  - split; [exact Hp|]. split; [exact Hc|].
    rewrite Ht. apply allPass_trace. exact Hp.
Qed.


Lemma validateEmailContent_missing (html : string) :
  validateEmailContent None None html <> inr true.
Proof.
  unfold validateEmailContent. cbn [Js.plus].
  destruct (2 <? _)%nat; discriminate.
Qed.

Lemma validateRecipients_inl (l : list string) (e : Js.exn)
    (st st' : state World) :
  validateRecipients (map RString l) st = (inl e, st') ->
  exists a, In a l
            /\ (e = Js.Error ("Invalid email address: " ++ a)
                \/ e = Js.Error ("Invalid domain for email: " ++ a)).
Proof.
  intros H.
  destruct (recipients_pass_or_first_failure l st)
    as [[s1 [Hp Hr]] | [pre [a [post [s1 [msg [s2 [El [Hp Hf]]]]]]]]].
  - rewrite Hr in H. discriminate H.
  - rewrite El, map_app in H. cbn [map] in H.
    rewrite (validateRecipients_pass _ _ _ _ Hp) in H.
    rewrite (validateRecipients_fail _ _ _ _ _ Hf) in H.
    injection H as <- _. exists a. split.
    + rewrite El. apply in_or_app. right. left. reflexivity.
    + destruct Hf; auto.
Qed.

(** X12: for a request as [EmailData.t] types it, that is, [to] a string,
    [null] or missing, [subject], [text], [html] and [templateType] strings
    or missing, [cc] and [bcc] arrays of strings, [null] or [undefined] or
    missing, [attachments] an array or missing, composing fails in four
    ways only: an address of the request failed the syntax and denylist
    check or the domain check, and the error names that address; the
    content was refused as spam-like; or a [TypeError], which takes a
    request without [text] that has no [subject] or no html body.  In every
    case no message was handed to the transport and nothing was written to
    the console.  (A property of another type, such as a number for [to] or
    [text] or [null] for [cc], is outside this statement.) *)
Theorem compose_errors (d : EmailData.t) (e : Js.exn) (st st' : state World) :
  composeMessage d st = (inl e, st') ->
  ((exists a,
       In (RString a)
          (allRecipients (EmailData.to d) (orEmpty (EmailData.cc d))
                         (orEmpty (EmailData.bcc d)))
       /\ (e = Js.Error ("Invalid email address: " ++ a)
           \/ e = Js.Error ("Invalid domain for email: " ++ a)))
   \/ e = Js.Error "Email content appears to be spam-like"
   \/ (exists msg, e = Js.TypeError msg
                   /\ EmailData.text d = None
                   /\ (EmailData.subject d = None
                       \/ Js.truthy (EmailData.html d) = false)))
  /\ Events.sentMessages (trace st') = Events.sentMessages (trace st)
  /\ Events.consoleLines (trace st') = Events.consoleLines (trace st).
Proof.
  intros H. split.
  - unfold composeMessage, bind in H.
    destruct (validateRecipients _ st) as [[e1|[]] st1] eqn:Ev.
    + injection H as <- _. left.
      unfold allRecipients in *.
      destruct (filter_Boolean_strings
                  (EmailData.to d :: orEmpty (EmailData.cc d)
                   ++ orEmpty (EmailData.bcc d))) as [addrs [E _]].
      rewrite E in Ev |- *.
      destruct (validateRecipients_inl _ _ _ _ Ev) as [a [Ha Hm]].
      exists a. split; [apply in_map; exact Ha | exact Hm].
    + destruct (validateEmailContent _ _ _) as [e1|[|]] eqn:Ec; cbn [negb] in H.
      * injection H as <- _. right. right.
        unfold validateEmailContent in Ec.
        destruct (2 <? _)%nat; [discriminate|].
        destruct (EmailData.subject d), (EmailData.text d);
          cbn [Js.plus] in Ec;
          try (destruct (Js.gt _ _); discriminate).
        injection Ec as <-. eexists. split; [reflexivity|]. split; auto.
      * unfold observe, ret, throw in H.
        destruct (Js.truthy (EmailData.html d)) eqn:Eh.
        -- destruct (dateNow (world st1)) as [now w1].
           destruct (mathRandom _) as [rnd w2]. discriminate H.
        -- destruct (EmailData.text d) as [t|] eqn:Et.
           ++ destruct (dateNow (world st1)) as [now w1].
              destruct (mathRandom _) as [rnd w2]. discriminate H.
           ++ injection H as <- _. right. right.
              eexists. split; [reflexivity|]. split; auto.
      * injection H as <- _. right. left. reflexivity.
  - destruct (composeMessage_appends d _ _ _ H) as [evs [T F]].
    destruct (lookups_send_nothing _ F) as [S1 S2].
    rewrite T, sentMessages_app, consoleLines_app, S1, S2, !app_nil_r.
    now split.
Qed.

Lemma deliver_inr (t : Transport.t) (m : MailOptions.t) (res : Result)
    (st st' : state World) :
  deliver t m st = (inr res, st') ->
  exists info w,
    sendMail t m (world st) = (inr info, w)
    /\ res = Events.resultOf info
    /\ st' = Events.delivered t m info w st.
Proof.
  unfold deliver. run_monad.
  destruct (sendMail t m (world st)) as [[e|info] w] eqn:E; cbn.
  - discriminate.
  - intros H. injection H as <- <-. exists info, w. repeat split.
Qed.

Lemma deliver_delivers (t : Transport.t) (m : MailOptions.t) (info : Info)
    (w : World) (st : state World) :
  sendMail t m (world st) = (inr info, w) ->
  deliver t m st = (inr (Events.resultOf info), Events.delivered t m info w st).
Proof. intros H. unfold deliver. run_monad. rewrite H. reflexivity. Qed.

(** X13: [sendEmail] calls the transport exactly once when the message
    could be composed, with that message, and never otherwise: there is no
    second attempt.  One line goes to the console for the call, the log of
    the message id or the error; a request refused before the call leaves no
    line. *)
Theorem sendEmail_calls_transport_at_most_once (d : EmailData.t)
    (st : state World) :
  let st' := snd (sendEmail d st) in
  match composeMessage d st with
  | (inl e, st1) =>
      sendEmail d st = (inl e, st1)
      /\ Events.sentMessages (trace st') = Events.sentMessages (trace st)
      /\ Events.consoleLines (trace st') = Events.consoleLines (trace st)
  | (inr m, st1) =>
      Events.sentMessages (trace st') =
      (Events.sentMessages (trace st) ++ [m])%list
      /\ (exists line,
             Events.consoleLines (trace st') =
             (Events.consoleLines (trace st) ++ [line])%list
             /\ trace st' =
                (trace st1 ++ [SendMail createTransporter m; line])%list)
  end.
Proof.
  intros st'. subst st'.
  destruct (composeMessage d st) as [[e|m] st1] eqn:Ec.
  - rewrite (sendEmail_compose_fail _ _ _ _ Ec). cbn [snd].
    split; [reflexivity|].
    destruct (composeMessage_appends d _ _ _ Ec) as [evs [T F]].
    destruct (lookups_send_nothing _ F) as [S1 S2].
    rewrite T, sentMessages_app, consoleLines_app, S1, S2, !app_nil_r.
    now split.
  - destruct (composeMessage_appends d _ _ _ Ec) as [evs [T F]].
    destruct (lookups_send_nothing _ F) as [S1 S2].
    unfold sendEmail, bind. rewrite Ec.
    destruct (sendMail createTransporter m (world st1)) as [[e|info] w] eqn:Es.
    + rewrite (deliver_throws _ _ _ _ _ Es). cbn [snd Spec.refused trace].
      rewrite !sentMessages_app, !consoleLines_app, T,
        sentMessages_app, consoleLines_app, S1, S2, !app_nil_r.
      split; [reflexivity|].
      eexists. split; [reflexivity|]. now rewrite <- app_assoc.
    + rewrite (deliver_delivers _ _ _ _ _ Es). cbn [snd Events.delivered trace].
      rewrite !sentMessages_app, !consoleLines_app, T,
        sentMessages_app, consoleLines_app, S1, S2, !app_nil_r.
      split; [reflexivity|].
      eexists. split; [reflexivity|]. now rewrite <- app_assoc.
Qed.

(** X14: when the transport takes the message, its answer is passed on
    untouched: [sendEmail] returns the message id and the accepted and
    rejected addresses of the transport under [success: true], and the route
    answers 200 with that object, also when some or all of the addresses
    were rejected. *)
Theorem transport_answer_passed_on (d : EmailData.t) (m : MailOptions.t)
    (info : Info) (w : World) (st st1 : state World) :
  composeMessage d st = (inr m, st1) ->
  sendMail createTransporter m (world st1) = (inr info, w) ->
  let st2 := Events.delivered createTransporter m info w st1 in
  sendEmail d st =
  (inr {| success := true;
          messageId := info_messageId info;
          accepted := info_accepted info;
          rejected := info_rejected info |}, st2)
  /\ postSendEmail d st =
     (inr {| status := 200;
             body := JsonResult {| success := true;
                                   messageId := info_messageId info;
                                   accepted := info_accepted info;
                                   rejected := info_rejected info |} |}, st2).
Proof.
  intros Hc Hs st2.
  assert (H : sendEmail d st = (inr (Events.resultOf info), st2)).
  { unfold sendEmail, bind. rewrite Hc. now apply deliver_delivers. }
  split; [exact H|].
  unfold postSendEmail, tryCatch, bind, ret. rewrite H. reflexivity.
Qed.

Lemma sendEmail_inr (d : EmailData.t) (res : Result) (st st' : state World) :
  sendEmail d st = (inr res, st') ->
  exists m st1 info w,
    composeMessage d st = (inr m, st1)
    /\ sendMail createTransporter m (world st1) = (inr info, w)
    /\ res = Events.resultOf info.
Proof.
  unfold sendEmail, bind.
  destruct (composeMessage d st) as [[e|m] st1] eqn:Ec; [discriminate|].
  intros H. destruct (deliver_inr _ _ _ _ _ H) as [info [w [Hs [Hr _]]]].
  exists m, st1, info, w. repeat split; assumption.
Qed.

(** X15: the route [/send-email] always answers and lets no exception
    out.  The answer is 200 with the result, whose [success] is [true],
    exactly when [sendEmail] returned; it is 400 with the message of the
    error exactly when [sendEmail] threw. *)
Theorem postSendEmail_always_answers (d : EmailData.t) (st : state World) :
  exists response st',
    postSendEmail d st = (inr response, st')
    /\ ((status response = 200
         /\ exists res, sendEmail d st = (inr res, st')
                        /\ body response = JsonResult res
                        /\ success res = true)
        \/ (status response = 400
            /\ exists e, sendEmail d st = (inl e, st')
                         /\ body response = JsonFailure (Js.message e))).
Proof.
  unfold postSendEmail, tryCatch, bind, ret.
  destruct (sendEmail d st) as [[e|res] st'] eqn:E.
  - eexists _, st'. split; [reflexivity|]. right. split; [reflexivity|].
    exists e. now split.
  - eexists _, st'. split; [reflexivity|]. left. split; [reflexivity|].
    exists res. split; [reflexivity|]. split; [reflexivity|].
    destruct (sendEmail_inr _ _ _ _ E) as [m [s1 [info [w [_ [_ ->]]]]]].
    reflexivity.
Qed.

(** X16: a request without [text] is never sent unless it brings both a
    subject and an html body: [sendEmail] throws, the transport is not
    called. *)
Theorem missing_text_is_never_sent (d : EmailData.t) (st : state World) :
  EmailData.text d = None ->
  EmailData.subject d = None \/ Js.truthy (EmailData.html d) = false ->
  exists e st',
    sendEmail d st = (inl e, st')
    /\ Events.sentMessages (trace st') = Events.sentMessages (trace st).
Proof.
  intros Ht Hor.
  destruct (composeMessage d st) as [[e|m] st1] eqn:Ec.
  - exists e, st1. split; [now apply sendEmail_compose_fail|].
    destruct (composeMessage_appends d _ _ _ Ec) as [evs [T F]].
    destruct (lookups_send_nothing _ F) as [S1 _].
    now rewrite T, sentMessages_app, S1, app_nil_r.
  - exfalso.
    destruct (composeMessage_inr _ _ _ _ Ec) as [_ [Hc [Hh _]]].
    destruct Hor as [Hs|Hh'].
    + rewrite Hs, Ht in Hc. exact (validateEmailContent_missing _ Hc).
    + rewrite Hh' in Hh. destruct Hh as [t [Et _]]. congruence.
Qed.

Lemma sendEmail_sentMessages (d : EmailData.t) (st : state World) :
  Events.sentMessages (trace (snd (sendEmail d st))) =
  (Events.sentMessages (trace st)
   ++ match fst (composeMessage d st) with
      | inr m => [m]
      | inl _ => []
      end)%list.
Proof.
  destruct (composeMessage d st) as [[e|m] st1] eqn:Ec;
    destruct (composeMessage_appends d _ _ _ Ec) as [evs [T F]];
    destruct (lookups_send_nothing _ F) as [S1 _]; cbn [fst].
  - rewrite (sendEmail_compose_fail _ _ _ _ Ec). cbn [snd].
    now rewrite T, sentMessages_app, S1.
  - unfold sendEmail, bind. rewrite Ec.
    destruct (sendMail createTransporter m (world st1)) as [[e|info] w] eqn:Es.
    + rewrite (deliver_throws _ _ _ _ _ Es). cbn [snd Spec.refused trace].
      rewrite !sentMessages_app, T, sentMessages_app, S1. cbn.
      now rewrite !app_nil_r.
    + rewrite (deliver_delivers _ _ _ _ _ Es). cbn [snd Events.delivered trace].
      rewrite !sentMessages_app, T, sentMessages_app, S1. cbn.
      now rewrite !app_nil_r.
Qed.

Lemma sendEmail_sent (d : EmailData.t) (r : Js.exn + Result)
    (st st' : state World) :
  sendEmail d st = (r, st') ->
  exists ms,
    Events.sentMessages (trace st') = (Events.sentMessages (trace st) ++ ms)%list
    /\ length ms <= 1
    /\ (forall res, r = inr res -> length ms = 1)
    /\ Forall (fun m => MailOptions.to m = EmailData.to d) ms.
Proof.
  intros H.
  pose proof (sendEmail_sentMessages d st) as A.
  rewrite H in A. cbn [snd] in A.
  destruct (composeMessage d st) as [[e|m] st1] eqn:Ec; cbn [fst] in A.
  - exists []. split; [exact A|]. split; [cbn; lia|]. split; [|constructor].
    intros res ->. rewrite (sendEmail_compose_fail _ _ _ _ Ec) in H.
    discriminate H.
  - exists [m]. split; [exact A|]. split; [cbn; lia|].
    split; [reflexivity|]. constructor; [|constructor].
    now destruct (composeMessage_inr _ _ _ _ Ec) as [_ [_ [_ [Hto _]]]].
Qed.

Lemma bulkRun_sent (template : EmailData.t) (entries : list EmailData.t)
    (results : list BulkResult) (st st' : state World) :
  Spec.bulkRun template entries st results st' ->
  exists ms,
    Events.sentMessages (trace st') = (Events.sentMessages (trace st) ++ ms)%list
    /\ length (filter bulkSuccess results) <= length ms
    /\ length ms <= length entries
    /\ Forall (fun m => exists entry,
                   In entry entries
                   /\ MailOptions.to m =
                      EmailData.to (EmailData.spread entry template)) ms.
Proof.
  induction 1 as [st | d rest st r st1 rs st2 Hs Hr [ms [T [L1 [L2 F]]]]
                     | d rest st e st1 rs st2 Hs Hr [ms [T [L1 [L2 F]]]]].
  - exists []. rewrite app_nil_r. repeat split; try (cbn; lia). constructor.
  - destruct (sendEmail_sent _ _ _ _ Hs) as [ms0 [T0 [B0 [B1 F0]]]].
    specialize (B1 r eq_refl).
    exists (ms0 ++ ms)%list. split.
    + rewrite T. cbn [Spec.paused trace].
      rewrite sentMessages_app, T0. cbn [Events.sentMessages].
      now rewrite app_nil_r, app_assoc.
    + cbn [filter bulkSuccess length]. rewrite length_app.
      split; [lia|]. split; [lia|].
      apply Forall_app. split.
      * eapply Forall_impl; [|exact F0]. intros m Hm.
        exists d. split; [left; reflexivity | exact Hm].
      * eapply Forall_impl; [|exact F]. intros m [entry [Hin Hm]].
        exists entry. split; [right; exact Hin | exact Hm].
  - destruct (sendEmail_sent _ _ _ _ Hs) as [ms0 [T0 [B0 [_ F0]]]].
    exists (ms0 ++ ms)%list. split.
    + now rewrite T, T0, app_assoc.
    + cbn [filter bulkSuccess length]. rewrite length_app.
      split; [lia|]. split; [lia|].
      apply Forall_app. split.
      * eapply Forall_impl; [|exact F0]. intros m Hm.
        exists d. split; [left; reflexivity | exact Hm].
      * eapply Forall_impl; [|exact F]. intros m [entry [Hin Hm]].
        exists entry. split; [right; exact Hin | exact Hm].
Qed.

(** X17: a shared template that has a [to] of its own takes the place of
    the recipient of every entry: each message of the bulk request goes to
    the recipient of the template, while the outcome of an entry still
    carries the [to] the entry came with. *)
Theorem bulk_template_recipient_overrides (reqBody : BulkBody)
    (entries : list EmailData.t) (st : state World) :
  emails reqBody = Emails entries ->
  length entries <= 10 ->
  EmailData.to (template reqBody) <> RUndefined ->
  exists results st' ms,
    postSendBulk reqBody st =
    (inr {| status := 200; body := JsonResults results |}, st')
    /\ map bulkEmail results = map EmailData.to entries
    /\ Events.sentMessages (trace st') =
       (Events.sentMessages (trace st) ++ ms)%list
    /\ Forall (fun m => MailOptions.to m = EmailData.to (template reqBody)) ms.
Proof.
  intros He Hlen Hto.
  destruct (postSendBulk_accepted reqBody entries st He Hlen)
    as [results [st' [Hp Hr]]].
  destruct (bulkRun_sent _ _ _ _ _ Hr) as [ms [T [_ [_ F]]]].
  exists results, st', ms. split; [exact Hp|].
  split; [exact (bulkRun_emails _ _ _ _ _ Hr)|]. split; [exact T|].
  eapply Forall_impl; [|exact F]. intros m [entry [_ Hm]].
  rewrite Hm. unfold EmailData.spread. cbn [EmailData.to].
  destruct (EmailData.to (template reqBody)); [contradiction | reflexivity | reflexivity].
Qed.

(** X18: the bounds of a bulk request.  The transport is called at most
    once for an entry, so at most ten times; every entry reported as sent
    stands for one of these calls; and the pauses add up to ten seconds at
    most. *)
Theorem bulk_request_bounds (reqBody : BulkBody) (entries : list EmailData.t)
    (st : state World) :
  emails reqBody = Emails entries ->
  length entries <= 10 ->
  exists results st' ms,
    postSendBulk reqBody st =
    (inr {| status := 200; body := JsonResults results |}, st')
    /\ Events.sentMessages (trace st') =
       (Events.sentMessages (trace st) ++ ms)%list
    /\ length (filter bulkSuccess results) <= length ms
    /\ length ms <= length entries
    /\ length ms <= 10
    /\ Spec.pausedMs (trace st') <= Spec.pausedMs (trace st) + 10 * 1000.
Proof.
  intros He Hlen.
  destruct (postSendBulk_accepted reqBody entries st He Hlen)
    as [results [st' [Hp Hr]]].
  destruct (bulkRun_sent _ _ _ _ _ Hr) as [ms [T [L1 [L2 _]]]].
  pose proof (bulkRun_paused _ _ _ _ _ Hr) as P.
  exists results, st', ms. repeat split; try assumption; lia.
Qed.

End SendRuns.

(** ** The further statements on the concrete world *)

Lemma transport_answer_passed_on_witness :
  composeMessage (Ext := Scenario.external) Scenario.welcome Scenario.start =
  (inr Cases.welcomeOptions, Scenario.bounceComposed)
  /\ sendMail (External := Scenario.external) Scenario.transporter
       Cases.welcomeOptions (world Scenario.bounceComposed) =
     (inr Cases.welcomeInfo, 4)
  /\ postSendEmail (Ext := Scenario.external) Scenario.welcome Scenario.start =
     (inr {| status := 200;
             body := JsonResult
                       {| success := true;
                          messageId := "<1700000000001.0.25@example.org>";
                          accepted := ["ann@example.org"];
                          rejected := [] |} |},
      Events.delivered Scenario.transporter Cases.welcomeOptions
        Cases.welcomeInfo 4 Scenario.bounceComposed).
Proof.
  assert (Hc : composeMessage (Ext := Scenario.external) Scenario.welcome
                 Scenario.start =
               (inr Cases.welcomeOptions, Scenario.bounceComposed))
    by (vm_compute; reflexivity).
  assert (Hs : sendMail (External := Scenario.external) Scenario.transporter
                 Cases.welcomeOptions (world Scenario.bounceComposed) =
               (inr Cases.welcomeInfo, 4))
    by reflexivity.
  split; [exact Hc|]. split; [exact Hs|].
  exact (proj2 (transport_answer_passed_on (Ext := Scenario.external)
                  Scenario.welcome Cases.welcomeOptions Cases.welcomeInfo 4
                  Scenario.start Scenario.bounceComposed Hc Hs)).
Defined.

Lemma composed_message_was_validated_witness :
  composeMessage (Ext := Scenario.external) Scenario.welcome Scenario.start =
  (inr Cases.welcomeOptions, Scenario.bounceComposed)
  /\ exists addrs st1,
       allRecipients (RString "ann@example.org") [] [] = map RString addrs
       /\ Spec.allPass (Ext := Scenario.external) addrs Scenario.start st1.
Proof.
  assert (Hc : composeMessage (Ext := Scenario.external) Scenario.welcome
                 Scenario.start =
               (inr Cases.welcomeOptions, Scenario.bounceComposed))
    by (vm_compute; reflexivity).
  split; [exact Hc|].
  destruct (composed_message_was_validated (Ext := Scenario.external)
              Scenario.welcome Cases.welcomeOptions Scenario.start
              Scenario.bounceComposed Hc)
    as [addrs [st1 [E [_ [Hp _]]]]].
  exists addrs, st1. split; [exact E | exact Hp].
Defined.


Lemma compose_errors_witness :
  composeMessage (Ext := Scenario.external) Scenario.threeRecipients
    Scenario.start =
  (inl (Js.Error "Invalid domain for email: x@nomail.example"),
   Scenario.afterNomail)
  /\ Events.sentMessages (trace Scenario.afterNomail) =
     Events.sentMessages (trace Scenario.start)
  /\ Events.consoleLines (trace Scenario.afterNomail) =
     Events.consoleLines (trace Scenario.start).
Proof.
  assert (Hc : composeMessage (Ext := Scenario.external)
                 Scenario.threeRecipients Scenario.start =
               (inl (Js.Error "Invalid domain for email: x@nomail.example"),
                Scenario.afterNomail))
    by (vm_compute; reflexivity).
  split; [exact Hc|].
  exact (proj2 (compose_errors (Ext := Scenario.external)
                  Scenario.threeRecipients _ Scenario.start
                  Scenario.afterNomail Hc)).
Defined.

Lemma missing_text_is_never_sent_witness :
  EmailData.text Cases.noText = None
  /\ Js.truthy (EmailData.html Cases.noText) = false
  /\ exists e st',
       sendEmail (Ext := Scenario.external) Cases.noText Scenario.start =
       (inl e, st')
       /\ Events.sentMessages (trace st') =
          Events.sentMessages (trace Scenario.start).
Proof.
  split; [reflexivity|]. split; [reflexivity|].
  exact (missing_text_is_never_sent (Ext := Scenario.external)
           Cases.noText Scenario.start eq_refl (or_intror eq_refl)).
Defined.

Lemma bulk_template_recipient_overrides_witness :
  emails Cases.bulkToCarol = Emails [Scenario.welcome; Scenario.bounce]
  /\ length [Scenario.welcome; Scenario.bounce] <= 10
  /\ EmailData.to (template Cases.bulkToCarol) <> RUndefined
  /\ exists results st' ms,
       postSendBulk (Ext := Scenario.external) Cases.bulkToCarol Scenario.start =
       (inr {| status := 200; body := JsonResults results |}, st')
       /\ map bulkEmail results =
          [RString "ann@example.org"; RString "bob@example.org"]
       /\ Events.sentMessages (trace st') =
          (Events.sentMessages (trace Scenario.start) ++ ms)%list
       /\ Forall (fun m => MailOptions.to m = RString "carol@example.org") ms.
Proof.
  assert (Hlen : length [Scenario.welcome; Scenario.bounce] <= 10)
    by (repeat constructor).
  assert (Hto : EmailData.to (template Cases.bulkToCarol) <> RUndefined)
    by discriminate.
  split; [reflexivity|]. split; [exact Hlen|]. split; [exact Hto|].
  exact (bulk_template_recipient_overrides (Ext := Scenario.external)
           Cases.bulkToCarol [Scenario.welcome; Scenario.bounce]
           Scenario.start eq_refl Hlen Hto).
Defined.

Lemma bulk_request_bounds_witness :
  emails Scenario.bounceThenWelcome = Emails [Scenario.bounce; Scenario.welcome]
  /\ length [Scenario.bounce; Scenario.welcome] <= 10
  /\ exists results st' ms,
       postSendBulk (Ext := Scenario.external)
         Scenario.bounceThenWelcome Scenario.start =
       (inr {| status := 200; body := JsonResults results |}, st')
       /\ Events.sentMessages (trace st') =
          (Events.sentMessages (trace Scenario.start) ++ ms)%list
       /\ length (filter bulkSuccess results) <= length ms
       /\ length ms <= 2
       /\ length ms <= 10
       /\ Spec.pausedMs (trace st') <= Spec.pausedMs (trace Scenario.start) + 10 * 1000.
Proof.
  assert (Hlen : length [Scenario.bounce; Scenario.welcome] <= 10)
    by (repeat constructor).
  split; [reflexivity|]. split; [exact Hlen|].
  exact (bulk_request_bounds (Ext := Scenario.external)
           Scenario.bounceThenWelcome [Scenario.bounce; Scenario.welcome]
           Scenario.start eq_refl Hlen).
Defined.

(** The two messages of the bulk request above, and what is reported. *)
Example bulk_to_carol_run :
  map MailOptions.to
      (Events.sentMessages
         (trace (snd (postSendBulk (Ext := Scenario.external)
                        Cases.bulkToCarol Scenario.start)))) =
  [RString "carol@example.org"; RString "carol@example.org"]
  /\ fst (postSendBulk (Ext := Scenario.external)
            Cases.bulkToCarol Scenario.start) =
     inr {| status := 200;
            body := JsonResults
                      [ Sent (RString "ann@example.org")
                             "<1700000000001.0.25@example.org>";
                        NotSent (RString "bob@example.org")
                                "Connection refused" ] |}.
Proof. split; vm_compute; reflexivity. Qed.

(** A template type that names an inherited member renders no layout, and
    the message carries that member in place of html. *)
Example template_under_inherited_name :
  createEmailTemplate (Ext := Scenario.external) "Hello" "constructor" =
  Js.Inherited "constructor"
  /\ createEmailTemplate (Ext := Scenario.external) "Hello" "newsletter" =
     Js.Markup (notificationTemplate "Hello" "example.org")
  /\ (exists m st',
         composeMessage (Ext := Scenario.external)
           (EmailData.spread Scenario.welcome
              {| EmailData.to := RUndefined; EmailData.cc := None;
                 EmailData.bcc := None; EmailData.subject := None;
                 EmailData.text := None; EmailData.html := None;
                 EmailData.templateType := Some "toString";
                 EmailData.attachments := None |})
           Scenario.start = (inr m, st')
         /\ MailOptions.html m = Js.Inherited "toString").
Proof.
  split; [reflexivity|]. split; [reflexivity|].
  eexists _, _. split; [vm_compute; reflexivity | reflexivity].
Qed.
